(** * AutonomousDrivingSimulation: the simulation and control loop

    A shallow embedding of the core of
    [src/components/AutonomousDrivingSimulation.jsx]: procedural road
    generation, obstacle placement, the sensor update, adaptive cruise
    control, lane keeping and the per-frame kinematic update, together with
    the start/stop handlers that drive them.

    JavaScript numbers are modelled as real numbers ([R]); the one
    non-finite value the code manipulates, [Infinity], is added on top as a
    separate constructor ([jsnum]); NaN and [-Infinity] do not arise on the
    modelled paths.  The arithmetic kernels whose concrete
    values the specification quotes are additionally given on binary64
    floats ([Module Binary64]) so that those values can be evaluated as the
    JavaScript engine would.

    Meshes, materials, lights, the camera and the renderer are not
    modelled: of the three.js objects only what the control loop reads
    back is kept (the car's position and rotation, the obstacles' position
    and rotation, whether the scene and the sensors exist).  The raycaster
    is a parameter.  React's scheduling is not modelled either: a state
    setter acts at once, and an event is a call of the mount effect, of a
    button handler or of the frame callback. *)

From Stdlib Require Import Reals Lra Lia List Bool Arith ZArith Sorted.
From Stdlib Require Floats.
Import ListNotations.

Set Warnings "-inexact-float".

(* ================================================================= *)
(** ** Binary64 kernels *)

Module Binary64.
Import Floats.
Local Open Scope float_scope.

(** [Math.max] on two numbers neither of which is NaN. *)
Definition max (a b : float) : float := if PrimFloat.ltb a b then b else a.

(** Body of [updateAdaptiveCruiseControl] as a function of the front
    reading. *)
Definition targetSpeedFor (frontDistance : float) : float :=
  let baseSpeed := 0.3 in
  if PrimFloat.ltb frontDistance 10 then
    let slowdownFactor := max 0.1 (frontDistance / 10) in
    baseSpeed * slowdownFactor
  else baseSpeed.

(** [simulation.carSpeed += (simulation.targetSpeed - simulation.carSpeed) * 0.1] *)
Definition smoothedSpeed (carSpeed targetSpeed : float) : float :=
  carSpeed + (targetSpeed - carSpeed) * 0.1.

(** [const distanceStep = simulation.carSpeed * delta * 20] *)
Definition distanceStep (carSpeed delta : float) : float :=
  carSpeed * delta * 20.

End Binary64.

Local Open Scope R_scope.

(* ================================================================= *)
(** ** Numbers and vectors *)

(** A JavaScript number that is either finite or [Infinity]. *)
Inductive jsnum : Type :=
| Fin (r : R)
| Infinity.

(** [a < b] on such numbers. *)
Definition js_lt (a b : jsnum) : bool :=
  match a, b with
  | Fin x, Fin y => if Rlt_dec x y then true else false
  | Fin _, Infinity => true
  | Infinity, _ => false
  end.

(** [THREE.Vector3]. *)
Record Vector3 : Type := mkVector3 { x : R; y : R; z : R }.

(** [THREE.Quaternion]. *)
Record Quaternion : Type := mkQuaternion { qx : R; qy : R; qz : R; qw : R }.

(** three.js [Quaternion.setFromAxisAngle(axis, angle)]; the axis is
    assumed normalised, as the library documents. *)
Definition setFromAxisAngle (axis : Vector3) (angle : R) : Quaternion :=
  let halfAngle := angle / 2 in
  let s := sin halfAngle in
  mkQuaternion (x axis * s) (y axis * s) (z axis * s) (cos halfAngle).

(** three.js [Vector3.applyQuaternion(q)]. *)
Definition applyQuaternion (v : Vector3) (q : Quaternion) : Vector3 :=
  let tx := 2 * (qy q * z v - qz q * y v) in
  let ty := 2 * (qz q * x v - qx q * z v) in
  let tz := 2 * (qx q * y v - qy q * x v) in
  mkVector3 (x v + qw q * tx + qy q * tz - qz q * ty)
            (y v + qw q * ty + qz q * tx - qx q * tz)
            (z v + qw q * tz + qx q * ty - qy q * tx).

(** three.js [Vector3.applyAxisAngle(axis, angle)]. *)
Definition applyAxisAngle (v axis : Vector3) (angle : R) : Vector3 :=
  applyQuaternion v (setFromAxisAngle axis angle).

(** three.js [Vector3.normalize()]: division by [length() || 1]. *)
Definition normalize (v : Vector3) : Vector3 :=
  let len := sqrt (x v * x v + y v * y v + z v * z v) in
  let d := if Req_EM_T len 0 then 1 else len in
  mkVector3 (x v / d) (y v / d) (z v / d).

Definition axisY : Vector3 := mkVector3 0 1 0.

(* ================================================================= *)
(** ** Data model *)

(** An entry of [simulation.roadCurves]:
    [{ position: { x, z }, angle, curvature }]. *)
Record Point : Type := mkPoint { px : R; pz : R }.

Record RoadCurve : Type := mkRoadCurve {
  position : Point;
  angle : R;
  curvature : R
}.

(** What the loop reads back from a three.js object: [position] and
    [rotation.y].  Used for the car group and for the obstacle groups. *)
Record Object3D : Type := mkObject3D {
  obj_position : Vector3;
  rotation_y : R
}.

Record SensorReadings : Type := mkSensorReadings {
  front : jsnum;
  left : jsnum;
  right : jsnum
}.

(** The object held in [simulationRef.current]. *)
Record Simulation : Type := mkSimulation {
  scene : bool;                 (* [scene] has been created *)
  car : option Object3D;        (* [null] before [setupCar] *)
  roadLength : R;
  roadWidth : R;
  laneWidth : R;
  roadCurves : list RoadCurve;
  carSpeed : R;
  targetSpeed : R;
  carPosition : Vector3;
  carRotation : R;
  obstacles : list Object3D;
  sensors : bool;               (* [sensors.front/left/right] exist *)
  sensorReadings : SensorReadings;
  distance : R;
  initialized : bool
}.

(** The component: the simulation object and the React state. *)
Record App : Type := mkApp {
  sim : Simulation;
  isSimulationRunning : bool;
  laneKeepingActive : bool;
  adaptiveCruiseActive : bool;
  speed : Z;                    (* [useState(0)], shown as km/h *)
  shownDistance : Z             (* [const [distance, setDistance]] *)
}.

(** The object literal passed to [useRef]. *)
Definition initialSimulation : Simulation := {|
  scene := false;
  car := None;
  roadLength := 500;
  roadWidth := 12;
  laneWidth := 4;
  roadCurves := [];
  carSpeed := 0.3;
  targetSpeed := 0.3;
  carPosition := mkVector3 0 0.5 0;
  carRotation := 0;
  obstacles := [];
  sensors := false;
  sensorReadings := mkSensorReadings Infinity Infinity Infinity;
  distance := 0;
  initialized := false
|}.

Definition initialApp : App := {|
  sim := initialSimulation;
  isSimulationRunning := false;
  laneKeepingActive := true;
  adaptiveCruiseActive := true;
  speed := 0%Z;
  shownDistance := 0%Z
|}.

(* ================================================================= *)
(** ** Road generation *)

(** [Math.random]: the value returned by the [k]-th call.  Functions that
    draw random numbers take the source and the number of calls made so
    far, and return the new count. *)
Definition RandomSource : Type := nat -> R.

Definition Rltb (a b : R) : bool := if Rlt_dec a b then true else false.

(** First loop of [generateRoad] ([for (let i = 0; i < segments; i++)]),
    with [n] iterations left. *)
Fixpoint roadCurvesLoop (random : RandomSource) (segmentLength : R)
    (n i k : nat) (currentX currentZ currentAngle : R)
  : list RoadCurve * nat :=
  match n with
  | O => ([], k)
  | S n' =>
    let '(curvature, k1) :=
      if (i <? 3)%nat then (0, k) else (random k * 0.03 - 0.015, S k) in
    let curve := mkRoadCurve (mkPoint currentX currentZ) currentAngle curvature in
    let currentAngle := currentAngle + curvature in
    let currentX := currentX + sin currentAngle * segmentLength in
    let currentZ := currentZ + cos currentAngle * segmentLength in
    let '(rest, k2) :=
      roadCurvesLoop random segmentLength n' (S i) k1
                     currentX currentZ currentAngle in
    (curve :: rest, k2)
  end.

(** Second loop of [generateRoad], restricted to the obstacles: [curves]
    are the entries [roadCurves[i]], [roadCurves[i+1]], ... still to
    visit. *)
Fixpoint obstaclesLoop (random : RandomSource) (roadWidth : R)
    (curves : list RoadCurve) (i k : nat) : list Object3D * nat :=
  match curves with
  | [] => ([], k)
  | curve :: rest =>
    if Rltb (random k) 0.2 && (3 <? i)%nat then
      let laneOffset :=
        (if Rltb 0.5 (random (S k)) then 1 else -1) * (roadWidth / 4) in
      let obstacle :=
        mkObject3D
          (mkVector3 (px (position curve) + sin (angle curve) * laneOffset)
                     0
                     (pz (position curve) + cos (angle curve) * laneOffset))
          (angle curve) in
      let '(more, k2) := obstaclesLoop random roadWidth rest (S i) (S (S k)) in
      (obstacle :: more, k2)
    else obstaclesLoop random roadWidth rest (S i) (S k)
  end.

Definition segments : nat := 20.

(** [generateRoad].  [simulation.scene.add] on a missing scene is a
    [TypeError], rendered as [None]. *)
Definition generateRoad (random : RandomSource) (app : App) : option App :=
  let simulation := sim app in
  if negb (scene simulation) then None else
  let segmentLength := roadLength simulation / INR segments in
  let '(curves, k) :=
    roadCurvesLoop random segmentLength segments 0 0 0 0 0 in
  let '(obs, _) := obstaclesLoop random (roadWidth simulation) curves 0 k in
  let carPosition' := mkVector3 0 0.5 0 in
  let carRotation' := 0 in
  Some {|
    sim := {|
      scene := scene simulation;
      car := match car simulation with
             | Some _ => Some (mkObject3D carPosition' carRotation')
             | None => None
             end;
      roadLength := roadLength simulation;
      roadWidth := roadWidth simulation;
      laneWidth := laneWidth simulation;
      roadCurves := curves;
      carSpeed := carSpeed simulation;
      targetSpeed := targetSpeed simulation;
      carPosition := carPosition';
      carRotation := carRotation';
      obstacles := obs;
      sensors := sensors simulation;
      sensorReadings := sensorReadings simulation;
      distance := 0;
      initialized := initialized simulation
    |};
    isSimulationRunning := isSimulationRunning app;
    laneKeepingActive := laneKeepingActive app;
    adaptiveCruiseActive := adaptiveCruiseActive app;
    speed := 0%Z;
    shownDistance := 0%Z
  |}.

(** [setupCar], after the scene exists: the car group and its three sensor
    meshes. *)
Definition setupCar (simulation : Simulation) : Simulation := {|
  scene := scene simulation;
  car := Some (mkObject3D (carPosition simulation) (carRotation simulation));
  roadLength := roadLength simulation;
  roadWidth := roadWidth simulation;
  laneWidth := laneWidth simulation;
  roadCurves := roadCurves simulation;
  carSpeed := carSpeed simulation;
  targetSpeed := targetSpeed simulation;
  carPosition := carPosition simulation;
  carRotation := carRotation simulation;
  obstacles := obstacles simulation;
  sensors := true;
  sensorReadings := sensorReadings simulation;
  distance := distance simulation;
  initialized := initialized simulation
|}.

(* ================================================================= *)
(** ** Adaptive cruise control *)

Definition baseSpeed : R := 0.3.

(** [Math.max]. *)
Definition Math_max (a b : R) : R := Rmax a b.

Definition set_targetSpeed (v : R) (simulation : Simulation) : Simulation := {|
  scene := scene simulation;
  car := car simulation;
  roadLength := roadLength simulation;
  roadWidth := roadWidth simulation;
  laneWidth := laneWidth simulation;
  roadCurves := roadCurves simulation;
  carSpeed := carSpeed simulation;
  targetSpeed := v;
  carPosition := carPosition simulation;
  carRotation := carRotation simulation;
  obstacles := obstacles simulation;
  sensors := sensors simulation;
  sensorReadings := sensorReadings simulation;
  distance := distance simulation;
  initialized := initialized simulation
|}.

(** [updateAdaptiveCruiseControl].  [frontDistance / 10] is only evaluated
    when [frontDistance < 10], where the reading is finite. *)
Definition updateAdaptiveCruiseControl (simulation : Simulation) : Simulation :=
  let frontDistance := front (sensorReadings simulation) in
  if js_lt frontDistance (Fin 10) then
    let slowdownFactor :=
      Math_max 0.1 (match frontDistance with
                    | Fin d => d / 10
                    | Infinity => 0   (* excluded by the test above *)
                    end) in
    set_targetSpeed (baseSpeed * slowdownFactor) simulation
  else
    set_targetSpeed baseSpeed simulation.

(* ================================================================= *)
(** ** Lane keeping *)

(** The scan [for (let i = 0; i < roadCurves.length; i++)] of
    [updateLaneKeeping]; [curves] are the entries from index [i] on. *)
Fixpoint nearestSegmentLoop (carPosition : Vector3) (curves : list RoadCurve)
    (i nearestSegmentIndex : nat) (minDistance : jsnum) : nat :=
  match curves with
  | [] => nearestSegmentIndex
  | segment :: rest =>
    let distance :=
      sqrt ((x carPosition - px (position segment)) ^ 2 +
            (z carPosition - pz (position segment)) ^ 2) in
    if js_lt (Fin distance) minDistance
    then nearestSegmentLoop carPosition rest (S i) i (Fin distance)
    else nearestSegmentLoop carPosition rest (S i) nearestSegmentIndex minDistance
  end.

(** The amount added to [carRotation] by [updateLaneKeeping], for the
    segment it selected. *)
Definition steering (carPosition : Vector3) (currentSegment : RoadCurve)
    (carSpeed : R) : R :=
  let roadAngle := angle currentSegment in
  let roadCenterX := px (position currentSegment) in
  let roadCenterZ := pz (position currentSegment) in
  let relativeX := x carPosition - roadCenterX in
  let relativeZ := z carPosition - roadCenterZ in
  let rotatedX := relativeX * cos (- roadAngle) - relativeZ * sin (- roadAngle) in
  let lateralOffset := rotatedX in
  let steeringCorrection := - lateralOffset * 0.5 in
  let predictiveSteering := curvature currentSegment * 10 in
  (steeringCorrection + predictiveSteering) * carSpeed.

Definition set_carRotation (v : R) (simulation : Simulation) : Simulation := {|
  scene := scene simulation;
  car := match car simulation with
         | Some c => Some (mkObject3D (obj_position c) v)
         | None => None
         end;
  roadLength := roadLength simulation;
  roadWidth := roadWidth simulation;
  laneWidth := laneWidth simulation;
  roadCurves := roadCurves simulation;
  carSpeed := carSpeed simulation;
  targetSpeed := targetSpeed simulation;
  carPosition := carPosition simulation;
  carRotation := v;
  obstacles := obstacles simulation;
  sensors := sensors simulation;
  sensorReadings := sensorReadings simulation;
  distance := distance simulation;
  initialized := initialized simulation
|}.

(** [updateLaneKeeping].  [carRotation] and [car.rotation.y] are written
    together. *)
Definition updateLaneKeeping (simulation : Simulation) : Simulation :=
  match car simulation, roadCurves simulation with
  | None, _ => simulation
  | Some _, [] => simulation
  | Some c, first :: _ =>
    let carPosition := obj_position c in
    let nearestSegmentIndex :=
      nearestSegmentLoop carPosition (roadCurves simulation) 0 0 Infinity in
    let currentSegment := nth nearestSegmentIndex (roadCurves simulation) first in
    set_carRotation
      (carRotation simulation
       + steering carPosition currentSegment (carSpeed simulation))
      simulation
  end.

(* ================================================================= *)
(** ** Sensors and the frame update *)

(** [raycaster.set(origin, direction)] and an entry of the array returned
    by [raycaster.intersectObjects]. *)
Record Ray : Type := mkRay { origin : Vector3; direction : Vector3 }.

Record Intersection : Type := mkIntersection {
  hit_distance : R;       (* [.distance] *)
  hit_object : Object3D   (* [.object] *)
}.

(** World position of a child of the car group placed at [local]; the
    group sits directly in the scene, rotated about the vertical axis. *)
Definition getWorldPosition (c : Object3D) (local : Vector3) : Vector3 :=
  let r := applyAxisAngle local axisY (rotation_y c) in
  mkVector3 (x (obj_position c) + x r)
            (y (obj_position c) + y r)
            (z (obj_position c) + z r).

(** [car.quaternion], kept in step with [car.rotation.y]. *)
Definition quaternion (c : Object3D) : Quaternion :=
  setFromAxisAngle axisY (rotation_y c).

Definition set_sensorReadings (v : SensorReadings) (simulation : Simulation)
  : Simulation := {|
  scene := scene simulation;
  car := car simulation;
  roadLength := roadLength simulation;
  roadWidth := roadWidth simulation;
  laneWidth := laneWidth simulation;
  roadCurves := roadCurves simulation;
  carSpeed := carSpeed simulation;
  targetSpeed := targetSpeed simulation;
  carPosition := carPosition simulation;
  carRotation := carRotation simulation;
  obstacles := obstacles simulation;
  sensors := sensors simulation;
  sensorReadings := v;
  distance := distance simulation;
  initialized := initialized simulation
|}.

(** [intersects.length > 0 ? intersects[0].distance : Infinity] *)
Definition reading (intersects : list Intersection) : jsnum :=
  match intersects with
  | [] => Infinity
  | first :: _ => Fin (hit_distance first)
  end.

(** The three rays cast by [updateSensors] for a car [c]. *)
Definition frontRay (c : Object3D) : Ray :=
  mkRay (getWorldPosition c (mkVector3 0 0.5 2))
        (normalize (applyQuaternion (mkVector3 0 0 1) (quaternion c))).

Definition leftRay (c : Object3D) : Ray :=
  mkRay (getWorldPosition c (mkVector3 (-1) 0.5 0))
        (normalize (applyQuaternion (mkVector3 (-1) 0 0) (quaternion c))).

Definition rightRay (c : Object3D) : Ray :=
  mkRay (getWorldPosition c (mkVector3 1 0.5 0))
        (normalize (applyQuaternion (mkVector3 1 0 0) (quaternion c))).

(** State of the car after the kinematic part of [updateSimulation]. *)
Definition moveCar (carSpeed' : R) (carPosition' : Vector3) (distance' : R)
    (simulation : Simulation) : Simulation := {|
  scene := scene simulation;
  car := match car simulation with
         | Some c => Some (mkObject3D carPosition' (rotation_y c))
         | None => None
         end;
  roadLength := roadLength simulation;
  roadWidth := roadWidth simulation;
  laneWidth := laneWidth simulation;
  roadCurves := roadCurves simulation;
  carSpeed := carSpeed';
  targetSpeed := targetSpeed simulation;
  carPosition := carPosition';
  carRotation := carRotation simulation;
  obstacles := obstacles simulation;
  sensors := sensors simulation;
  sensorReadings := sensorReadings simulation;
  distance := distance';
  initialized := initialized simulation
|}.

(** [Math.floor]. *)
Definition Math_floor (r : R) : Z := Int_part r.

Section Raycaster.

(** three.js [Raycaster.intersectObjects(objects, true)] for the ray last
    given to [raycaster.set]. *)
Variable intersectObjects : Ray -> list Object3D -> list Intersection.

(** [updateSensors]. *)
Definition updateSensors (simulation : Simulation) : Simulation :=
  match car simulation with
  | None => simulation
  | Some c =>
    if negb (sensors simulation) then simulation else
    let frontIntersects := intersectObjects (frontRay c) (obstacles simulation) in
    let leftIntersects := intersectObjects (leftRay c) (obstacles simulation) in
    let rightIntersects := intersectObjects (rightRay c) (obstacles simulation) in
    set_sensorReadings
      (mkSensorReadings (reading frontIntersects)
                        (reading leftIntersects)
                        (reading rightIntersects))
      simulation
  end.

(** [updateSimulation]; [delta] is the value of [clock.getDelta()] for this
    frame.  The camera update at the end of the source function only moves
    the camera and is left out. *)
Definition updateSimulation (delta : R) (app : App) : App :=
  let simulation := sim app in
  match car simulation with
  | None => app
  | Some _ =>
    if negb (initialized simulation) then app else
    let simulation :=
      if adaptiveCruiseActive app
      then updateAdaptiveCruiseControl simulation else simulation in
    let carSpeed' :=
      carSpeed simulation
      + (targetSpeed simulation - carSpeed simulation) * 0.1 in
    let distanceStep := carSpeed' * delta * 20 in
    let forward :=
      applyAxisAngle (mkVector3 0 0 1) axisY (carRotation simulation) in
    let carPosition' :=
      mkVector3 (x (carPosition simulation) + x forward * distanceStep)
                (y (carPosition simulation))
                (z (carPosition simulation) + z forward * distanceStep) in
    let distance' := distance simulation + distanceStep in
    let simulation := moveCar carSpeed' carPosition' distance' simulation in
    let simulation :=
      if laneKeepingActive app
      then updateLaneKeeping simulation else simulation in
    let simulation := updateSensors simulation in
    {| sim := simulation;
       isSimulationRunning :=
         if Rltb (roadLength simulation) (distance simulation)
         then false else isSimulationRunning app;
       laneKeepingActive := laneKeepingActive app;
       adaptiveCruiseActive := adaptiveCruiseActive app;
       speed := Math_floor (carSpeed' * 100);
       shownDistance := Math_floor distance' |}
  end.

(** The body of [animate] that bears on the state. *)
Definition animate (delta : R) (app : App) : App :=
  if isSimulationRunning app then updateSimulation delta app else app.

End Raycaster.

(* ================================================================= *)
(** ** Mounting and the buttons *)

Definition set_isSimulationRunning (b : bool) (app : App) : App := {|
  sim := sim app;
  isSimulationRunning := b;
  laneKeepingActive := laneKeepingActive app;
  adaptiveCruiseActive := adaptiveCruiseActive app;
  speed := speed app;
  shownDistance := shownDistance app
|}.

Definition set_sim (s : Simulation) (app : App) : App := {|
  sim := s;
  isSimulationRunning := isSimulationRunning app;
  laneKeepingActive := laneKeepingActive app;
  adaptiveCruiseActive := adaptiveCruiseActive app;
  speed := speed app;
  shownDistance := shownDistance app
|}.

Definition createScene (simulation : Simulation) : Simulation := {|
  scene := true;
  car := car simulation;
  roadLength := roadLength simulation;
  roadWidth := roadWidth simulation;
  laneWidth := laneWidth simulation;
  roadCurves := roadCurves simulation;
  carSpeed := carSpeed simulation;
  targetSpeed := targetSpeed simulation;
  carPosition := carPosition simulation;
  carRotation := carRotation simulation;
  obstacles := obstacles simulation;
  sensors := sensors simulation;
  sensorReadings := sensorReadings simulation;
  distance := distance simulation;
  initialized := initialized simulation
|}.

Definition set_initialized (simulation : Simulation) : Simulation := {|
  scene := scene simulation;
  car := car simulation;
  roadLength := roadLength simulation;
  roadWidth := roadWidth simulation;
  laneWidth := laneWidth simulation;
  roadCurves := roadCurves simulation;
  carSpeed := carSpeed simulation;
  targetSpeed := targetSpeed simulation;
  carPosition := carPosition simulation;
  carRotation := carRotation simulation;
  obstacles := obstacles simulation;
  sensors := sensors simulation;
  sensorReadings := sensorReadings simulation;
  distance := distance simulation;
  initialized := true
|}.

(** The scene-initialisation effect: scene, [setupCar()], [generateRoad()],
    [simulation.initialized = true]. *)
Definition mountEffect (random : RandomSource) (app : App) : option App :=
  let app := set_sim (setupCar (createScene (sim app))) app in
  match generateRoad random app with
  | Some app => Some (set_sim (set_initialized (sim app)) app)
  | None => None
  end.

(** [handleStartSimulation]. *)
Definition handleStartSimulation (random : RandomSource) (app : App)
  : option App :=
  if negb (isSimulationRunning app) then
    match generateRoad random app with
    | Some app => Some (set_isSimulationRunning true app)
    | None => None
    end
  else Some app.

(** [handleStopSimulation]. *)
Definition handleStopSimulation (app : App) : App :=
  if isSimulationRunning app then set_isSimulationRunning false app else app.

Definition toggleLaneKeeping (app : App) : App := {|
  sim := sim app;
  isSimulationRunning := isSimulationRunning app;
  laneKeepingActive := negb (laneKeepingActive app);
  adaptiveCruiseActive := adaptiveCruiseActive app;
  speed := speed app;
  shownDistance := shownDistance app
|}.

Definition toggleAdaptiveCruise (app : App) : App := {|
  sim := sim app;
  isSimulationRunning := isSimulationRunning app;
  laneKeepingActive := laneKeepingActive app;
  adaptiveCruiseActive := negb (adaptiveCruiseActive app);
  speed := speed app;
  shownDistance := shownDistance app
|}.

(** What can happen to the component.  [Mount] is a run of the scene
    effect: the first one when the component mounts, and one more each
    time [animate], on which the effect depends, changes with the running
    flag. *)
Inductive Event : Type :=
| Mount (random : RandomSource)
| Start (random : RandomSource)
| Stop
| Frame (delta : R)
| ToggleLaneKeeping
| ToggleAdaptiveCruise.

Section Run.

Variable intersectObjects : Ray -> list Object3D -> list Intersection.

Definition step (e : Event) (app : App) : option App :=
  match e with
  | Mount random => mountEffect random app
  | Start random => handleStartSimulation random app
  | Stop => Some (handleStopSimulation app)
  | Frame delta => Some (animate intersectObjects delta app)
  | ToggleLaneKeeping => Some (toggleLaneKeeping app)
  | ToggleAdaptiveCruise => Some (toggleAdaptiveCruise app)
  end.

Fixpoint run (events : list Event) (app : App) : option App :=
  match events with
  | [] => Some app
  | e :: rest =>
    match step e app with
    | Some app' => run rest app'
    | None => None
    end
  end.

(** [n] consecutive frames with the elapsed times [deltas 0], [deltas 1],
    ... *)
Fixpoint frames (deltas : nat -> R) (n : nat) (app : App) : App :=
  match n with
  | O => app
  | S n' => animate intersectObjects (deltas n') (frames deltas n' app)
  end.

End Run.

(* ================================================================= *)
(** ** Camera and lane markings *)

(** [updateCamera]: the position given to the camera, [None] when the
    function returns early for lack of a car.  The [lookAt] call that
    follows only turns the camera. *)
Definition updateCamera (simulation : Simulation) : option Vector3 :=
  match car simulation with
  | None => None
  | Some c =>
    let cameraOffsetY := 7 in
    let cameraOffsetZ := -15 in
    Some (mkVector3
            (x (obj_position c)
             - sin (carRotation simulation) * Rabs cameraOffsetZ)
            (y (obj_position c) + cameraOffsetY)
            (z (obj_position c)
             - cos (carRotation simulation) * Rabs cameraOffsetZ))
  end.

(** [const dashLength = 3; const dashGap = 2;] *)
Definition dashLength : R := 3.
Definition dashGap : R := 2.

(** [numDashes] of [createRoadSegment]. *)
Definition numDashes (length : R) : Z :=
  Math_floor (length / (dashLength + dashGap)).

(** Centres, along the segment, of the dashes of the centre line that
    [createRoadSegment] lays out:
    [for (let i = 0; i < numDashes; i++)] with
    [startPos = i * (dashLength + dashGap)] and the dash placed at
    [startPos + dashLength / 2]. *)
Definition centerDashes (length : R) : list R :=
  map (fun i => INR i * (dashLength + dashGap) + dashLength / 2)
      (seq 0 (Z.to_nat (numDashes length))).

(* ================================================================= *)
(** ** Notions used to state the properties, and sample states *)

(** Consecutive entries of a segment list are linked the way the first
    loop of [generateRoad] links them, for segment length [L]. *)
Fixpoint chained (L : R) (curves : list RoadCurve) : Prop :=
  match curves with
  | c1 :: rest =>
    match rest with
    | c2 :: _ =>
      angle c2 = angle c1 + curvature c1 /\
      px (position c2) = px (position c1) + sin (angle c2) * L /\
      pz (position c2) = pz (position c1) + cos (angle c2) * L
    | [] => True
    end /\ chained L rest
  | [] => True
  end.

(** The segment list and the obstacle list built by [generateRoad] from a
    random source, for a road of the given length and width. *)
Definition generatedCurves (random : RandomSource) (len : R) : list RoadCurve :=
  fst (roadCurvesLoop random (len / INR segments) segments 0 0 0 0 0).

(** The obstacles placed on that road; the placement draws follow the
    curvature draws of the first loop. *)
Definition generatedObstacles (random : RandomSource) (len width : R)
  : list Object3D :=
  fst (obstaclesLoop random width (generatedCurves random len) 0
         (snd (roadCurvesLoop random (len / INR segments) segments 0 0 0 0 0))).

(** A component whose scene and car exist, ahead of any road. *)
Definition sceneReady : App :=
  set_sim (setupCar (createScene initialSimulation)) initialApp.

(** Random draws that are all [0.5], except call 21, the placement draw of
    segment 4 (calls 0 to 16 are the curvature draws of segments 3 to 19,
    calls 17 to 20 the placement draws of segments 0 to 3), which is
    [0.1]. *)
Definition oneObstacleSource : RandomSource :=
  fun k => if (k =? 21)%nat then 0.1 else 0.5.

(** Random draws that are all [0.5], except call 0, the curvature draw of
    segment 3, which is [0.9]: segment 3 has curvature [0.012], every
    other segment has curvature 0, and no obstacle is placed. *)
Definition curvedSource : RandomSource :=
  fun k => if (k =? 0)%nat then 0.9 else 0.5.

(** The road [generateRoad] builds from [curvedSource] for a length of
    500: four segments up the z axis, then sixteen along the heading
    [0.012] from [(0, 75)]. *)
Definition curvedRoad : list RoadCurve :=
  map (fun i => mkRoadCurve (mkPoint 0 (25 * INR i)) 0 0) (seq 0 3)
  ++ mkRoadCurve (mkPoint 0 75) 0 0.012
  :: map (fun m => mkRoadCurve
                     (mkPoint (25 * INR m * sin 0.012)
                              (75 + 25 * INR m * cos 0.012))
                     0.012 0)
         (seq 1 16).

(** Euclidean distance in the ground plane between a position and the
    start of a segment. *)
Definition groundDistance (p : Vector3) (segment : RoadCurve) : R :=
  sqrt ((x p - px (position segment)) ^ 2 + (z p - pz (position segment)) ^ 2).

(** The lateral offset as the specification describes it: the vector from
    the segment's start to the vehicle is taken into the segment's local
    frame by the inverse of the rotation by the segment's heading, and the
    x component of the result is kept.  A heading is an angle about the y
    axis, the rotation three.js applies to a mesh whose [rotation.y] is
    set and the one [updateSimulation] applies to [(0, 0, 1)] to get the
    direction of travel; its inverse is the rotation by minus the
    heading. *)
Definition specLateralOffset (p : Vector3) (segment : RoadCurve) : R :=
  x (applyAxisAngle
       (mkVector3 (x p - px (position segment)) 0 (z p - pz (position segment)))
       axisY (- angle segment)).

(** The heading update the specification gives for that offset:
    [(-lateralOffset * Kp + curvature * Kff) * currentSpeed] with
    [Kp = 0.5] and [Kff = 10]. *)
Definition specSteering (p : Vector3) (segment : RoadCurve) (currentSpeed : R)
  : R :=
  (- specLateralOffset p segment * 0.5 + curvature segment * 10) * currentSpeed.

(** [n] is the lowest index at which the distance from [p] is minimal
    over [curves]. *)
Definition nearest (p : Vector3) (curves : list RoadCurve) (n : nat)
    (segment : RoadCurve) : Prop :=
  nth_error curves n = Some segment /\
  (forall j sj, nth_error curves j = Some sj ->
                groundDistance p segment <= groundDistance p sj) /\
  (forall j sj, (j < n)%nat -> nth_error curves j = Some sj ->
                groundDistance p segment < groundDistance p sj).

(** State of the scan after the entries [done] have been visited. *)
Definition scanned (p : Vector3) (done : list RoadCurve)
    (nearestSegmentIndex : nat) (minDistance : jsnum) : Prop :=
  match done with
  | [] => minDistance = Infinity
  | _ :: _ =>
    exists segment,
      nearest p done nearestSegmentIndex segment /\
      minDistance = Fin (groundDistance p segment)
  end.

(** A car one unit to the side of the only segment, which is straight and
    heads along [+z]. *)
Definition besideTheRoad : Simulation :=
  set_carRotation 0
    (moveCar 0.3 (mkVector3 1 0.5 0) 0
       (setupCar
          {| scene := true; car := None;
             roadLength := 500; roadWidth := 12; laneWidth := 4;
             roadCurves := [mkRoadCurve (mkPoint 0 0) 0 0];
             carSpeed := 0.3; targetSpeed := 0.3;
             carPosition := mkVector3 0 0.5 0; carRotation := 0;
             obstacles := []; sensors := false;
             sensorReadings := mkSensorReadings Infinity Infinity Infinity;
             distance := 0; initialized := true |})).

(** A simulation whose front sensor reads [d]. *)
Definition withFront (d : jsnum) : Simulation :=
  set_sensorReadings (mkSensorReadings d Infinity Infinity) initialSimulation.

(** The target speed in force during a frame: recomputed when cruise
    control is enabled, the stored one otherwise. *)
Definition frameTarget (app : App) : R :=
  if adaptiveCruiseActive app
  then targetSpeed (updateAdaptiveCruiseControl (sim app))
  else targetSpeed (sim app).

(** The speed after the smoothing step of a frame. *)
Definition frameSpeed (app : App) : R :=
  carSpeed (sim app) + (frameTarget app - carSpeed (sim app)) * 0.1.

(** The distance covered in a frame that lasts [delta]. *)
Definition frameStep (delta : R) (app : App) : R :=
  frameSpeed app * delta * 20.

(** Insertion of a hit into a list ordered by distance. *)
Fixpoint insertHit (h : Intersection) (hits : list Intersection)
  : list Intersection :=
  match hits with
  | [] => [h]
  | h' :: rest =>
    if Rle_dec (hit_distance h) (hit_distance h')
    then h :: hits else h' :: insertHit h rest
  end.

(** A raycaster for point obstacles: every object is hit, at its distance
    from the ray's origin, and the hits come back nearest first. *)
Fixpoint pointHits (ray : Ray) (objects : list Object3D) : list Intersection :=
  match objects with
  | [] => []
  | o :: rest =>
    insertHit
      (mkIntersection
         (sqrt ((x (obj_position o) - x (origin ray)) ^ 2
                + (y (obj_position o) - y (origin ray)) ^ 2
                + (z (obj_position o) - z (origin ray)) ^ 2)) o)
      (pointHits ray rest)
  end.

(** A running component whose car stands beside a one-segment road. *)
Definition driving : App :=
  set_isSimulationRunning true (set_sim besideTheRoad initialApp).

(** Speed and target speed both lie between a tenth of the base speed and
    the base speed. *)
Definition speedsInRange (simulation : Simulation) : Prop :=
  0.03 <= carSpeed simulation <= 0.3 /\
  0.03 <= targetSpeed simulation <= 0.3.

(** Hits ordered by distance, nearest first. *)
Definition nearer (a b : Intersection) : Prop :=
  hit_distance a <= hit_distance b.

(** The smallest distance among a list of hits, [Infinity] when there is
    none. *)
Fixpoint minimumDistance (hits : list Intersection) : jsnum :=
  match hits with
  | [] => Infinity
  | h :: rest =>
    match minimumDistance rest with
    | Infinity => Fin (hit_distance h)
    | Fin m => Fin (Rmin (hit_distance h) m)
    end
  end.

(** Number of curvature draws made for the segments [i], ..., [i + j - 1]:
    the segments of index below 3 draw none. *)
Definition drawn (i j : nat) : nat := ((i + j - 3) - (i - 3))%nat.

(** The simulation object after the speed, position and distance updates
    of [updateSimulation], before lane keeping and the sensors run. *)
Definition movedState (delta : R) (app : App) : Simulation :=
  let before :=
    if adaptiveCruiseActive app
    then updateAdaptiveCruiseControl (sim app) else sim app in
  let carSpeed' :=
    carSpeed before + (targetSpeed before - carSpeed before) * 0.1 in
  let distanceStep := carSpeed' * delta * 20 in
  let forward := applyAxisAngle (mkVector3 0 0 1) axisY (carRotation before) in
  moveCar carSpeed'
    (mkVector3 (x (carPosition before) + x forward * distanceStep)
               (y (carPosition before))
               (z (carPosition before) + z forward * distanceStep))
    (distance before + distanceStep) before.

(** Total time of the first [n] frames. *)
Fixpoint elapsed (deltas : nat -> R) (n : nat) : R :=
  match n with
  | O => 0
  | S n' => elapsed deltas n' + deltas n'
  end.

(** No obstacle, nothing in front, and speed and target speed both at the
    base speed. *)
Definition clearRoad (s : Simulation) : Prop :=
  obstacles s = [] /\ carSpeed s = 0.3 /\ targetSpeed s = 0.3 /\
  front (sensorReadings s) = Infinity.

(** Every segment starts on the z axis, heads along it and has no
    curvature. *)
Definition straightRoad (curves : list RoadCurve) : Prop :=
  forall segment, In segment curves ->
    px (position segment) = 0 /\ angle segment = 0 /\ curvature segment = 0.

(** A component on a two-segment straight road, the car at the origin. *)
Definition centred : App :=
  set_isSimulationRunning true
    (set_sim
       (setupCar
          {| scene := true; car := None;
             roadLength := 500; roadWidth := 12; laneWidth := 4;
             roadCurves := [mkRoadCurve (mkPoint 0 0) 0 0;
                            mkRoadCurve (mkPoint 0 25) 0 0];
             carSpeed := 0.3; targetSpeed := 0.3;
             carPosition := mkVector3 0 0.5 0; carRotation := 0;
             obstacles := []; sensors := false;
             sensorReadings := mkSensorReadings Infinity Infinity Infinity;
             distance := 0; initialized := true |})
       initialApp).

(** What the header may show: the floor of the distance, and a speed that
    is 0 or between 3 and 30. *)
Definition shownValues (app : App) : Prop :=
  speedsInRange (sim app) /\
  shownDistance app = Math_floor (distance (sim app)) /\
  (speed app = 0%Z \/ (3 <= speed app <= 30)%Z).

(** The car mesh mirrors the simulation's pose. *)
Definition meshInSync (s : Simulation) : Prop :=
  match car s with
  | Some c => obj_position c = carPosition s /\ rotation_y c = carRotation s
  | None => True
  end.

(** Shape of the simulation object once it has a car: scene and sensors
    exist, the road has 20 segments and at most 16 obstacles; and a
    simulation marked initialised has a car.  The road length is the
    configured 500 throughout. *)
Definition wellFormed (s : Simulation) : Prop :=
  roadLength s = 500 /\
  (initialized s = true -> car s <> None) /\
  (car s <> None ->
   scene s = true /\ sensors s = true /\
   length (roadCurves s) = 20%nat /\ (length (obstacles s) <= 16)%nat).

(** A running component as [driving], but slower than its target and with
    cruise control switched off. *)
Definition catchingUp : App :=
  toggleAdaptiveCruise
    (set_isSimulationRunning true
       (set_sim (moveCar 0.1 (mkVector3 1 0.5 0) 0 besideTheRoad) initialApp)).

(** A stopped, initialised component whose front sensor still reads 5
    from an earlier run. *)
Definition stoppedBehindObstacle : App :=
  set_sim
    (set_sensorReadings (mkSensorReadings (Fin 5) Infinity Infinity)
                        besideTheRoad)
    initialApp.

(* ================================================================= *)
(** * Properties *)

(** ** Road generation: the recurrence between consecutive segments *)

Section RoadCurves.

Variable random : RandomSource.
Variable L : R.

Lemma roadCurvesLoop_length n : forall i k X Z A,
  length (fst (roadCurvesLoop random L n i k X Z A)) = n.
Proof.
  induction n as [|n IH]; intros i k X Z A; simpl; [reflexivity|].
  destruct (i <? 3)%nat;
    match goal with
    | |- context [roadCurvesLoop random L n ?i' ?k' ?X' ?Z' ?A'] =>
      specialize (IH i' k' X' Z' A');
      destruct (roadCurvesLoop random L n i' k' X' Z' A') as [rest k2]
    end; simpl in *; congruence.
Qed.

Lemma roadCurvesLoop_step n i k X Z A :
  exists curv k1,
    fst (roadCurvesLoop random L (S n) i k X Z A) =
    mkRoadCurve (mkPoint X Z) A curv
    :: fst (roadCurvesLoop random L n (S i) k1
              (X + sin (A + curv) * L) (Z + cos (A + curv) * L) (A + curv)).
Proof.
  cbn [roadCurvesLoop].
  destruct (i <? 3)%nat;
    match goal with
    | |- context [roadCurvesLoop random L n (S i) ?k' ?X' ?Z' (A + ?c)] =>
      exists c, k';
      destruct (roadCurvesLoop random L n (S i) k' X' Z' (A + c))
    end; reflexivity.
Qed.

Lemma roadCurvesLoop_chained n : forall i k X Z A,
  chained L (fst (roadCurvesLoop random L n i k X Z A)).
Proof.
  induction n as [|n IH]; intros i k X Z A; [exact I|].
  destruct (roadCurvesLoop_step n i k X Z A) as (curv & k1 & ->).
  cbn [chained]. split; [|apply IH].
  destruct n as [|m]; [exact I|].
  destruct (roadCurvesLoop_step m (S i) k1
              (X + sin (A + curv) * L) (Z + cos (A + curv) * L) (A + curv))
    as (curv2 & k2 & ->).
  cbn. repeat split; reflexivity.
Qed.

End RoadCurves.

Lemma chained_nth L : forall curves i ci cj,
  chained L curves ->
  nth_error curves i = Some ci ->
  nth_error curves (S i) = Some cj ->
  angle cj = angle ci + curvature ci /\
  px (position cj) = px (position ci) + sin (angle cj) * L /\
  pz (position cj) = pz (position ci) + cos (angle cj) * L.
Proof.
  induction curves as [|c curves IH]; intros i ci cj Hc Hi Hj.
  - destruct i; discriminate.
  - destruct i as [|i].
    + destruct curves as [|c2 rest]; [discriminate|].
      cbn in Hi, Hj. injection Hi as <-. injection Hj as <-.
      exact (proj1 Hc).
    + exact (IH i ci cj (proj2 Hc) Hi Hj).
Qed.

(** ** What [generateRoad] leaves behind *)

Lemma generateRoad_spec random app :
  scene (sim app) = true ->
  exists app',
    generateRoad random app = Some app' /\
    roadCurves (sim app') =
      generatedCurves random (roadLength (sim app)) /\
    obstacles (sim app') =
      generatedObstacles random (roadLength (sim app)) (roadWidth (sim app)) /\
    distance (sim app') = 0 /\
    carRotation (sim app') = 0 /\
    carPosition (sim app') = mkVector3 0 0.5 0 /\
    shownDistance app' = 0%Z /\ speed app' = 0%Z /\
    carSpeed (sim app') = carSpeed (sim app) /\
    targetSpeed (sim app') = targetSpeed (sim app) /\
    roadLength (sim app') = roadLength (sim app) /\
    isSimulationRunning app' = isSimulationRunning app /\
    scene (sim app') = true /\
    initialized (sim app') = initialized (sim app) /\
    (car (sim app) <> None -> car (sim app') <> None) /\
    sensorReadings (sim app') = sensorReadings (sim app) /\
    sensors (sim app') = sensors (sim app) /\
    laneKeepingActive app' = laneKeepingActive app /\
    adaptiveCruiseActive app' = adaptiveCruiseActive app.
Proof.
  intros Hscene. unfold generateRoad, generatedObstacles, generatedCurves.
  rewrite Hscene. cbn [negb].
  destruct (roadCurvesLoop random (roadLength (sim app) / INR segments)
              segments 0 0 0 0 0) as [curves k].
  cbn [fst snd].
  destruct (obstaclesLoop random (roadWidth (sim app)) curves 0 k) as [obs k'].
  eexists; split; [reflexivity|]. cbn.
  repeat split; try assumption.
  destruct (car (sim app)); [discriminate | contradiction].
Qed.

Lemma generateRoad_no_scene random app :
  scene (sim app) = false -> generateRoad random app = None.
Proof. intros H. unfold generateRoad. rewrite H. reflexivity. Qed.

(** From here on [generateRoad] is used through the two lemmas above
    only. *)
Opaque generateRoad.

Lemma generatedCurves_length random len :
  length (generatedCurves random len) = segments.
Proof. apply roadCurvesLoop_length. Qed.

(** C6. For every generated road and every index [i] with [i+1] still a
    segment: the heading of segment [i+1] is the heading of segment [i]
    plus the curvature of segment [i], and the position of segment [i+1]
    is the position of segment [i] advanced by the segment length
    ([roadLength / 20]) along the accumulated heading, the one segment
    [i+1] carries: [dx = sin(heading) * L], [dz = cos(heading) * L]. *)
Theorem C6_heading_and_position_recurrence :
  forall (random : RandomSource) (app : App) (i : nat),
    scene (sim app) = true ->
    (S i < segments)%nat ->
    exists app' ci cj,
      generateRoad random app = Some app' /\
      length (roadCurves (sim app')) = segments /\
      nth_error (roadCurves (sim app')) i = Some ci /\
      nth_error (roadCurves (sim app')) (S i) = Some cj /\
      angle cj = angle ci + curvature ci /\
      px (position cj)
        = px (position ci) + sin (angle cj) * (roadLength (sim app) / 20) /\
      pz (position cj)
        = pz (position ci) + cos (angle cj) * (roadLength (sim app) / 20).
Proof.
  intros random app i Hscene Hi.
  destruct (generateRoad_spec random app Hscene) as (app' & Hgen & Hcurves & _).
  pose proof (generatedCurves_length random (roadLength (sim app))) as Hlen.
  rewrite <- Hcurves in Hlen.
  destruct (nth_error (roadCurves (sim app')) i) as [ci|] eqn:Ei.
  2:{ apply nth_error_None in Ei. lia. }
  destruct (nth_error (roadCurves (sim app')) (S i)) as [cj|] eqn:Ej.
  2:{ apply nth_error_None in Ej. lia. }
  exists app', ci, cj.
  assert (Hch : chained (roadLength (sim app) / INR segments)
                        (roadCurves (sim app'))).
  { rewrite Hcurves. apply roadCurvesLoop_chained. }
  replace (INR segments) with 20 in Hch by (unfold segments; simpl; lra).
  destruct (chained_nth _ _ _ _ _ Hch Ei Ej) as (Ha & Hx & Hz).
  repeat split; assumption.
Qed.

(** The recurrence between segments 0 and 1 of the road generated from
    draws that are all [0.5]. *)
Lemma C6_heading_and_position_recurrence_witness :
  exists app' ci cj,
    generateRoad (fun _ => 0.5) sceneReady = Some app' /\
    length (roadCurves (sim app')) = segments /\
    nth_error (roadCurves (sim app')) 0 = Some ci /\
    nth_error (roadCurves (sim app')) 1 = Some cj /\
    angle cj = angle ci + curvature ci /\
    px (position cj)
      = px (position ci) + sin (angle cj) * (roadLength (sim sceneReady) / 20) /\
    pz (position cj)
      = pz (position ci) + cos (angle cj) * (roadLength (sim sceneReady) / 20).
Proof.
  apply (C6_heading_and_position_recurrence (fun _ => 0.5) sceneReady 0).
  - reflexivity.
  - unfold segments. lia.
Defined.

(** ** Obstacle placement *)

Section Obstacles.

Variable random : RandomSource.
Variable W : R.

(** Every obstacle produced by the second loop belongs to a segment of
    index above 3, carries that segment's heading, and sits at the
    segment's position plus [s * (W / 4) * (sin angle, cos angle)] with
    [s] either [1] or [-1]. *)
Lemma obstaclesLoop_placed : forall curves i k o,
  In o (fst (obstaclesLoop random W curves i k)) ->
  exists j curve s,
    nth_error curves j = Some curve /\
    (3 < i + j)%nat /\
    (s = 1 \/ s = -1) /\
    rotation_y o = angle curve /\
    obj_position o =
      mkVector3 (px (position curve) + sin (angle curve) * (s * (W / 4)))
                0
                (pz (position curve) + cos (angle curve) * (s * (W / 4))).
Proof.
  induction curves as [|curve rest IH]; intros i k o Hin; [contradiction|].
  cbn [obstaclesLoop] in Hin.
  destruct (Rltb (random k) 0.2 && (3 <? i)%nat) eqn:Hplace.
  - destruct (obstaclesLoop random W rest (S i) (S (S k))) as [more k2] eqn:Hrest.
    cbn [fst] in Hin. destruct Hin as [<- | Hin].
    + apply andb_true_iff in Hplace. destruct Hplace as [_ Hi].
      apply Nat.ltb_lt in Hi.
      exists 0%nat, curve, (if Rltb 0.5 (random (S k)) then 1 else -1).
      cbn. repeat split; try lia.
      destruct (Rltb 0.5 (random (S k))); [left | right]; reflexivity.
    + specialize (IH (S i) (S (S k)) o). rewrite Hrest in IH.
      destruct (IH Hin) as (j & c & s & Hj & Hlt & Hs & Hr & Hp).
      exists (S j), c, s. cbn [nth_error]. repeat split; try assumption; lia.
  - destruct (IH (S i) (S k) o Hin) as (j & c & s & Hj & Hlt & Hs & Hr & Hp).
    exists (S j), c, s. cbn [nth_error]. repeat split; try assumption; lia.
Qed.

End Obstacles.

(** On a generated road no obstacle belongs to one of the first four
    segments, each obstacle has its segment's heading, and its offset from
    the segment start is [+-(width / 4)] times [(sin angle, cos angle)],
    the direction in which the first loop advances the road. *)
Lemma generatedObstacles_placed random len width o :
  In o (generatedObstacles random len width) ->
  exists j curve s,
    nth_error (generatedCurves random len) j = Some curve /\
    (3 < j)%nat /\
    (s = 1 \/ s = -1) /\
    rotation_y o = angle curve /\
    obj_position o =
      mkVector3
        (px (position curve) + sin (angle curve) * (s * (width / 4)))
        0
        (pz (position curve) + cos (angle curve) * (s * (width / 4))).
Proof.
  unfold generatedObstacles.
  generalize (generatedCurves random len) as curves.
  generalize (snd (roadCurvesLoop random (len / INR segments) segments
                     0 0 0 0 0)) as k.
  intros k curves Hin.
  destruct (obstaclesLoop_placed random width curves 0%nat k o Hin)
    as (j & curve & s & Hj & Hlt & Hs & Hr & Hp).
  exists j, curve, s. repeat split; assumption.
Qed.

Lemma sin_zero a : a = 0 -> sin a = 0.
Proof. intros ->. apply sin_0. Qed.

Lemma cos_zero a : a = 0 -> cos a = 1.
Proof. intros ->. apply cos_0. Qed.

Lemma Rltb_true a b : a < b -> Rltb a b = true.
Proof.
  intros H. unfold Rltb. destruct (Rlt_dec a b); [reflexivity | contradiction].
Qed.

Lemma Rltb_false a b : b <= a -> Rltb a b = false.
Proof.
  intros H. unfold Rltb. destruct (Rlt_dec a b); [lra | reflexivity].
Qed.

Lemma obstaclesLoop_skip random W curve rest i k :
  Rltb (random k) 0.2 && (3 <? i)%nat = false ->
  obstaclesLoop random W (curve :: rest) i k
  = obstaclesLoop random W rest (S i) (S k).
Proof. intros H. cbn [obstaclesLoop]. rewrite H. reflexivity. Qed.

Lemma obstaclesLoop_place random W curve rest i k :
  Rltb (random k) 0.2 && (3 <? i)%nat = true ->
  fst (obstaclesLoop random W (curve :: rest) i k)
  = mkObject3D
      (mkVector3
         (px (position curve) + sin (angle curve)
            * ((if Rltb 0.5 (random (S k)) then 1 else -1) * (W / 4)))
         0
         (pz (position curve) + cos (angle curve)
            * ((if Rltb 0.5 (random (S k)) then 1 else -1) * (W / 4))))
      (angle curve)
    :: fst (obstaclesLoop random W rest (S i) (S (S k))).
Proof.
  intros H. cbn [obstaclesLoop]. rewrite H.
  destruct (obstaclesLoop random W rest (S i) (S (S k))). reflexivity.
Qed.

Ltac flat_trig :=
  repeat match goal with
         | |- context [sin ?a] => rewrite (sin_zero a) by lra
         | |- context [cos ?a] => rewrite (cos_zero a) by lra
         end.

Ltac skip_segment :=
  rewrite obstaclesLoop_skip
    by (cbn [oneObstacleSource Nat.eqb Nat.ltb Nat.leb];
        first [ rewrite Rltb_false by lra; reflexivity
              | apply andb_false_r ]).

Lemma oneObstacleSource_obstacles :
  generatedObstacles oneObstacleSource 500 12
  = [mkObject3D (mkVector3 0 0 97) 0].
Proof.
  unfold generatedObstacles, generatedCurves, segments.
  replace (INR 20) with 20 by (simpl; lra).
  cbn [roadCurvesLoop Nat.ltb Nat.leb fst snd].
  do 4 skip_segment.
  rewrite obstaclesLoop_place
    by (cbn [oneObstacleSource Nat.eqb Nat.ltb Nat.leb];
        rewrite Rltb_true by lra; reflexivity).
  do 15 skip_segment.
  cbn [obstaclesLoop fst oneObstacleSource Nat.eqb position angle px pz].
  rewrite Rltb_false by lra.
  repeat f_equal; flat_trig; lra.
Qed.

Lemma oneObstacleSource_segment4 :
  exists c,
    nth_error (generatedCurves oneObstacleSource 500) 4 = Some c /\
    px (position c) = 0 /\ pz (position c) = 100 /\ angle c = 0.
Proof.
  unfold generatedCurves, segments.
  replace (INR 20) with 20 by (simpl; lra).
  cbn [roadCurvesLoop Nat.ltb Nat.leb fst snd nth_error].
  eexists. split; [reflexivity|].
  cbn [position angle px pz oneObstacleSource Nat.eqb].
  repeat split; flat_trig; lra.
Qed.

(** C3, evaluated on the random draws of [oneObstacleSource] (every draw
    [0.5], except the placement draw of segment 4, which is [0.1]): the
    road is straight, segment 4 starts at [(0, 100)] with heading [0], so
    its forward direction is [+z] and its lateral direction is [x]; the
    single obstacle is put at [(0, 0, 97)], three units back along the
    heading and with no lateral offset at all. *)
Theorem C3_obstacle_offset_runs_along_heading :
  exists app' c,
    generateRoad oneObstacleSource sceneReady = Some app' /\
    nth_error (roadCurves (sim app')) 4 = Some c /\
    px (position c) = 0 /\ pz (position c) = 100 /\ angle c = 0 /\
    obstacles (sim app') = [mkObject3D (mkVector3 0 0 97) 0].
Proof.
  destruct (generateRoad_spec oneObstacleSource sceneReady eq_refl)
    as (app' & Hgen & Hcurves & Hobs & _).
  destruct oneObstacleSource_segment4 as (c & Hc & Hx & Hz & Ha).
  exists app', c.
  change (roadLength (sim sceneReady)) with 500 in Hcurves, Hobs.
  change (roadWidth (sim sceneReady)) with 12 in Hobs.
  rewrite Hcurves, Hobs.
  repeat split; try assumption.
  apply oneObstacleSource_obstacles.
Qed.

(** ** Lane keeping *)

Lemma scanned_step p done segment best minDistance :
  scanned p done best minDistance ->
  scanned p (done ++ [segment])
    (if js_lt (Fin (groundDistance p segment)) minDistance
     then length done else best)
    (if js_lt (Fin (groundDistance p segment)) minDistance
     then Fin (groundDistance p segment) else minDistance).
Proof.
  intros Hs.
  destruct done as [|d0 done'].
  - cbn in Hs. subst minDistance. cbn.
    exists segment. split; [|reflexivity].
    split; [reflexivity|]. split.
    + intros [|[|j]] sj Hj; cbn in Hj; try discriminate.
      injection Hj as <-. lra.
    + intros j sj Hlt. lia.
  - destruct Hs as (sb & (Hnth & Hle & Hlt) & ->).
    set (done := d0 :: done') in *.
    assert (Hbest : (best < length done)%nat).
    { apply nth_error_Some. congruence. }
    assert (Hne : exists a l, done ++ [segment] = a :: l).
    { subst done. cbn. eauto. }
    destruct Hne as (a & l & Hne). unfold scanned. rewrite Hne, <- Hne.
    cbn [js_lt].
    destruct (Rlt_dec (groundDistance p segment) (groundDistance p sb)) as [Hd|Hd].
    + exists segment. split; [|reflexivity]. split; [|split].
      * rewrite nth_error_app2 by lia. rewrite Nat.sub_diag. reflexivity.
      * intros j sj Hj.
        destruct (Nat.lt_ge_cases j (length done)) as [Hjl|Hjl].
        -- rewrite nth_error_app1 in Hj by exact Hjl.
           specialize (Hle j sj Hj). lra.
        -- rewrite nth_error_app2 in Hj by exact Hjl.
           destruct (j - length done)%nat as [|m]; cbn in Hj.
           ++ injection Hj as <-. lra.
           ++ destruct m; discriminate.
      * intros j sj Hjl Hj.
        rewrite nth_error_app1 in Hj by exact Hjl.
        specialize (Hle j sj Hj). lra.
    + exists sb. split; [|reflexivity]. split; [|split].
      * rewrite nth_error_app1 by exact Hbest. exact Hnth.
      * intros j sj Hj.
        destruct (Nat.lt_ge_cases j (length done)) as [Hjl|Hjl].
        -- rewrite nth_error_app1 in Hj by exact Hjl. exact (Hle j sj Hj).
        -- rewrite nth_error_app2 in Hj by exact Hjl.
           destruct (j - length done)%nat as [|m]; cbn in Hj.
           ++ injection Hj as <-. lra.
           ++ destruct m; discriminate.
      * intros j sj Hjl Hj.
        rewrite nth_error_app1 in Hj by lia.
        exact (Hlt j sj Hjl Hj).
Qed.

Lemma nearestSegmentLoop_scanned p : forall todo done best minDistance,
  scanned p done best minDistance ->
  exists minDistance',
    scanned p (done ++ todo)
      (nearestSegmentLoop p todo (length done) best minDistance)
      minDistance'.
Proof.
  induction todo as [|segment todo IH]; intros done best minDistance Hs.
  - cbn. rewrite app_nil_r. eauto.
  - pose proof (scanned_step p done segment best minDistance Hs) as Hstep.
    cbn [nearestSegmentLoop]. fold (groundDistance p segment).
    replace (done ++ segment :: todo) with ((done ++ [segment]) ++ todo)
      by (rewrite <- app_assoc; reflexivity).
    replace (S (length done)) with (length (done ++ [segment]))
      by (rewrite length_app; cbn; lia).
    destruct (js_lt (Fin (groundDistance p segment)) minDistance);
      exact (IH _ _ _ Hstep).
Qed.

(** The index kept by the scan of [updateLaneKeeping] is the lowest index
    of a segment at minimal ground-plane distance from the car. *)
Lemma nearestSegmentLoop_nearest p curves :
  curves <> [] ->
  exists segment,
    nearest p curves (nearestSegmentLoop p curves 0 0 Infinity) segment.
Proof.
  intros Hne.
  destruct (nearestSegmentLoop_scanned p curves [] 0%nat Infinity eq_refl)
    as (m & Hs).
  cbn [app length] in Hs.
  destruct curves as [|c curves]; [contradiction|].
  destruct Hs as (segment & Hn & _). exists segment. exact Hn.
Qed.

(** What [updateLaneKeeping] adds to the heading, for the car and the
    segment list it is given. *)
Lemma updateLaneKeeping_steering_law simulation c :
  car simulation = Some c ->
  roadCurves simulation <> [] ->
  exists n segment,
    nearest (obj_position c) (roadCurves simulation) n segment /\
    carRotation (updateLaneKeeping simulation)
    = carRotation simulation
      + steering (obj_position c) segment (carSpeed simulation) /\
    car (updateLaneKeeping simulation)
    = Some (mkObject3D (obj_position c)
                       (carRotation (updateLaneKeeping simulation))).
Proof.
  intros Hcar Hne.
  destruct (nearestSegmentLoop_nearest (obj_position c) _ Hne) as (segment & Hn).
  exists (nearestSegmentLoop (obj_position c) (roadCurves simulation) 0 0 Infinity),
         segment.
  split; [exact Hn|].
  unfold updateLaneKeeping. rewrite Hcar.
  destruct (roadCurves simulation) as [|first rest] eqn:Hcurves; [contradiction|].
  destruct Hn as (Hnth & _).
  rewrite (nth_error_nth _ _ first Hnth).
  cbn [carRotation set_carRotation car]. rewrite Hcar.
  split; reflexivity.
Qed.

(** ** Adaptive cruise control *)

Lemma Rmax_tenth_le_1 d : d < 10 -> 0.1 <= Rmax 0.1 (d / 10) <= 1.
Proof.
  intros Hd. unfold Rmax. destruct (Rle_dec 0.1 (d / 10)); lra.
Qed.

Lemma updateAdaptiveCruiseControl_below simulation d :
  front (sensorReadings simulation) = Fin d -> d < 10 ->
  targetSpeed (updateAdaptiveCruiseControl simulation)
  = 0.3 * Rmax 0.1 (d / 10).
Proof.
  intros Hf Hd. unfold updateAdaptiveCruiseControl. rewrite Hf. cbn [js_lt].
  destruct (Rlt_dec d 10); [reflexivity | contradiction].
Qed.

Lemma updateAdaptiveCruiseControl_clear simulation d :
  front (sensorReadings simulation) = Fin d -> 10 <= d ->
  targetSpeed (updateAdaptiveCruiseControl simulation) = 0.3.
Proof.
  intros Hf Hd. unfold updateAdaptiveCruiseControl. rewrite Hf. cbn [js_lt].
  destruct (Rlt_dec d 10); [lra | reflexivity].
Qed.

Lemma updateAdaptiveCruiseControl_no_hit simulation :
  front (sensorReadings simulation) = Infinity ->
  targetSpeed (updateAdaptiveCruiseControl simulation) = 0.3.
Proof.
  intros Hf. unfold updateAdaptiveCruiseControl. rewrite Hf. reflexivity.
Qed.

Module CruiseController.
Import Floats.

(** C2. With base speed 0.3, the cruise controller sets
    [targetSpeed = 0.3 * max(0.1, d / 10)] when the forward clearance [d]
    is below 10 and [targetSpeed = 0.3] otherwise (a clearance of 10 or
    more, or no obstacle in sight); clearances 5, 20 and 0 give 0.15, 0.3
    and 0.03, over the reals and on binary64 numbers alike. *)
Theorem C2_cruise_target_speed :
  (forall simulation d,
      front (sensorReadings simulation) = Fin d -> d < 10 ->
      targetSpeed (updateAdaptiveCruiseControl simulation)
      = 0.3 * Rmax 0.1 (d / 10)) /\
  (forall simulation d,
      front (sensorReadings simulation) = Fin d -> 10 <= d ->
      targetSpeed (updateAdaptiveCruiseControl simulation) = 0.3) /\
  (forall simulation,
      front (sensorReadings simulation) = Infinity ->
      targetSpeed (updateAdaptiveCruiseControl simulation) = 0.3) /\
  targetSpeed (updateAdaptiveCruiseControl (withFront (Fin 5))) = 0.15 /\
  targetSpeed (updateAdaptiveCruiseControl (withFront (Fin 20))) = 0.3 /\
  targetSpeed (updateAdaptiveCruiseControl (withFront (Fin 0))) = 0.03 /\
  (Binary64.targetSpeedFor 5 = 0.15)%float /\
  (Binary64.targetSpeedFor 20 = 0.3)%float /\
  (Binary64.targetSpeedFor 0 = 0.03)%float /\
  (Binary64.targetSpeedFor infinity = 0.3)%float.
Proof.
  split; [exact updateAdaptiveCruiseControl_below|].
  split; [exact updateAdaptiveCruiseControl_clear|].
  split; [exact updateAdaptiveCruiseControl_no_hit|].
  split.
  { rewrite (updateAdaptiveCruiseControl_below (withFront (Fin 5)) 5 eq_refl) by lra.
    unfold Rmax. destruct (Rle_dec 0.1 (5 / 10)); lra. }
  split.
  { apply (updateAdaptiveCruiseControl_clear (withFront (Fin 20)) 20 eq_refl). lra. }
  split.
  { rewrite (updateAdaptiveCruiseControl_below (withFront (Fin 0)) 0 eq_refl) by lra.
    unfold Rmax. destruct (Rle_dec 0.1 (0 / 10)); lra. }
  repeat split; vm_compute; reflexivity.
Qed.

End CruiseController.

(** ** The frame update *)

(** Rotating the unit vector [(0, 0, 1)] about the vertical axis by
    [theta] gives [(sin theta, 0, cos theta)]. *)
Lemma forward_direction theta :
  applyAxisAngle (mkVector3 0 0 1) axisY theta
  = mkVector3 (sin theta) 0 (cos theta).
Proof.
  assert (Hs : sin theta = 2 * sin (theta / 2) * cos (theta / 2)).
  { rewrite <- sin_2a. f_equal. lra. }
  assert (Hc : cos theta = 1 - 2 * sin (theta / 2) * sin (theta / 2)).
  { rewrite <- cos_2a_sin. f_equal. lra. }
  unfold applyAxisAngle, applyQuaternion, setFromAxisAngle, axisY. cbn.
  rewrite Hs, Hc. f_equal; ring.
Qed.

(** three.js's rotation about the y axis, on any vector. *)
Lemma applyAxisAngle_axisY a b c theta :
  applyAxisAngle (mkVector3 a b c) axisY theta
  = mkVector3 (a * cos theta + c * sin theta) b
              (- a * sin theta + c * cos theta).
Proof.
  assert (Hs : sin theta = 2 * sin (theta / 2) * cos (theta / 2)).
  { rewrite <- sin_2a. f_equal. lra. }
  assert (Hc : cos theta = 1 - 2 * sin (theta / 2) * sin (theta / 2)).
  { rewrite <- cos_2a_sin. f_equal. lra. }
  unfold applyAxisAngle, applyQuaternion, setFromAxisAngle, axisY. cbn.
  rewrite Hs, Hc. f_equal; ring.
Qed.

Ltac unfold_lane_keeping simulation :=
  unfold updateLaneKeeping;
  destruct (car simulation); [destruct (roadCurves simulation) eqn:?|];
  first [reflexivity | assumption].

Lemma updateLaneKeeping_carSpeed s : carSpeed (updateLaneKeeping s) = carSpeed s.
Proof. unfold_lane_keeping s. Qed.

Lemma updateLaneKeeping_targetSpeed s :
  targetSpeed (updateLaneKeeping s) = targetSpeed s.
Proof. unfold_lane_keeping s. Qed.

Lemma updateLaneKeeping_carPosition s :
  carPosition (updateLaneKeeping s) = carPosition s.
Proof. unfold_lane_keeping s. Qed.

Lemma updateLaneKeeping_distance s : distance (updateLaneKeeping s) = distance s.
Proof. unfold_lane_keeping s. Qed.

Lemma updateLaneKeeping_roadLength s :
  roadLength (updateLaneKeeping s) = roadLength s.
Proof. unfold_lane_keeping s. Qed.

Lemma updateLaneKeeping_initialized s :
  initialized (updateLaneKeeping s) = initialized s.
Proof. unfold_lane_keeping s. Qed.

Lemma updateLaneKeeping_roadCurves s :
  roadCurves (updateLaneKeeping s) = roadCurves s.
Proof. unfold_lane_keeping s. Qed.

Lemma updateLaneKeeping_car_present s :
  car (updateLaneKeeping s) = None <-> car s = None.
Proof.
  unfold updateLaneKeeping.
  destruct (car s) eqn:E; [destruct (roadCurves s)|]; cbn; rewrite ?E;
    split; congruence.
Qed.

Lemma updateAdaptiveCruiseControl_car s :
  car (updateAdaptiveCruiseControl s) = car s.
Proof. unfold updateAdaptiveCruiseControl. destruct (js_lt _ _); reflexivity. Qed.

Lemma updateAdaptiveCruiseControl_initialized s :
  initialized (updateAdaptiveCruiseControl s) = initialized s.
Proof. unfold updateAdaptiveCruiseControl. destruct (js_lt _ _); reflexivity. Qed.

Lemma updateAdaptiveCruiseControl_carSpeed s :
  carSpeed (updateAdaptiveCruiseControl s) = carSpeed s.
Proof. unfold updateAdaptiveCruiseControl. destruct (js_lt _ _); reflexivity. Qed.

Section FrameFacts.

Variable intersectObjects : Ray -> list Object3D -> list Intersection.

Ltac unfold_sensors simulation :=
  unfold updateSensors;
  destruct (car simulation) eqn:?; [destruct (sensors simulation) eqn:?|];
  first [reflexivity | assumption].

Lemma updateSensors_carSpeed s :
  carSpeed (updateSensors intersectObjects s) = carSpeed s.
Proof. unfold_sensors s. Qed.

Lemma updateSensors_targetSpeed s :
  targetSpeed (updateSensors intersectObjects s) = targetSpeed s.
Proof. unfold_sensors s. Qed.

Lemma updateSensors_carPosition s :
  carPosition (updateSensors intersectObjects s) = carPosition s.
Proof. unfold_sensors s. Qed.

Lemma updateSensors_carRotation s :
  carRotation (updateSensors intersectObjects s) = carRotation s.
Proof. unfold_sensors s. Qed.

Lemma updateSensors_distance s :
  distance (updateSensors intersectObjects s) = distance s.
Proof. unfold_sensors s. Qed.

Lemma updateSensors_roadLength s :
  roadLength (updateSensors intersectObjects s) = roadLength s.
Proof. unfold_sensors s. Qed.

Lemma updateSensors_initialized s :
  initialized (updateSensors intersectObjects s) = initialized s.
Proof. unfold_sensors s. Qed.

Lemma updateSensors_roadCurves s :
  roadCurves (updateSensors intersectObjects s) = roadCurves s.
Proof. unfold_sensors s. Qed.

Lemma updateSensors_car s :
  car (updateSensors intersectObjects s) = car s.
Proof. unfold_sensors s. Qed.

(** What one executed frame does to speed, distance and position. *)
Lemma updateSimulation_kinematics delta app c :
  car (sim app) = Some c ->
  initialized (sim app) = true ->
  let app' := updateSimulation intersectObjects delta app in
  carSpeed (sim app') = frameSpeed app /\
  targetSpeed (sim app') = frameTarget app /\
  distance (sim app') = distance (sim app) + frameStep delta app /\
  roadLength (sim app') = roadLength (sim app) /\
  carPosition (sim app') =
    mkVector3
      (x (carPosition (sim app))
       + sin (carRotation (sim app)) * frameStep delta app)
      (y (carPosition (sim app)))
      (z (carPosition (sim app))
       + cos (carRotation (sim app)) * frameStep delta app).
Proof.
  intros Hcar Hinit.
  unfold updateSimulation, frameStep, frameSpeed, frameTarget.
  rewrite Hcar, Hinit. cbn [negb sim].
  destruct (adaptiveCruiseActive app), (laneKeepingActive app);
    rewrite ?updateSensors_carSpeed, ?updateSensors_targetSpeed,
      ?updateSensors_distance, ?updateSensors_carPosition,
      ?updateSensors_roadLength,
      ?updateLaneKeeping_carSpeed, ?updateLaneKeeping_targetSpeed,
      ?updateLaneKeeping_distance, ?updateLaneKeeping_carPosition,
      ?updateLaneKeeping_roadLength;
    cbn [carSpeed targetSpeed distance carPosition roadLength moveCar];
    rewrite forward_direction; cbn [x z];
    repeat split;
    unfold updateAdaptiveCruiseControl;
    destruct (js_lt _ _); reflexivity.
Qed.

End FrameFacts.

(** ** A concrete raycaster *)

Module Kinematics.
Import Floats.

(** C5. On every executed frame with elapsed time [delta], the speed is
    first moved towards the target speed of that frame by
    [speed += (targetSpeed - speed) * 0.1]; the distance step is the new
    speed times [delta] times 20; the position advances by that step along
    [(sin heading, 0, cos heading)], which is the vector three.js computes
    for the forward direction.  With speed and target speed 0.3 and
    [delta = 0.05] the step is 0.3, over the reals and on binary64 numbers
    alike. *)
Theorem C5_speed_smoothing_then_advance :
  forall (intersectObjects : Ray -> list Object3D -> list Intersection)
         (delta : R) (app : App) (c : Object3D),
    car (sim app) = Some c ->
    initialized (sim app) = true ->
    let app' := updateSimulation intersectObjects delta app in
    let step := carSpeed (sim app') * delta * 20 in
    carSpeed (sim app')
    = carSpeed (sim app)
      + (targetSpeed (sim app') - carSpeed (sim app)) * 0.1 /\
    distance (sim app') = distance (sim app) + step /\
    applyAxisAngle (mkVector3 0 0 1) axisY (carRotation (sim app))
    = mkVector3 (sin (carRotation (sim app))) 0 (cos (carRotation (sim app))) /\
    carPosition (sim app')
    = mkVector3
        (x (carPosition (sim app)) + sin (carRotation (sim app)) * step)
        (y (carPosition (sim app)))
        (z (carPosition (sim app)) + cos (carRotation (sim app)) * step) /\
    (carSpeed (sim app) = 0.3 -> targetSpeed (sim app') = 0.3 ->
     delta = 0.05 -> step = 0.3) /\
    (Binary64.distanceStep (Binary64.smoothedSpeed 0.3 0.3) 0.05 = 0.3)%float.
Proof.
  intros io delta app c Hcar Hinit app' step.
  destruct (updateSimulation_kinematics io delta app c Hcar Hinit)
    as (Hspeed & Htarget & Hdist & _ & Hpos).
  fold app' in Hspeed, Htarget, Hdist, Hpos.
  assert (Hstep : step = frameStep delta app).
  { unfold step, frameStep. rewrite Hspeed. reflexivity. }
  repeat split.
  - rewrite Hspeed, Htarget. reflexivity.
  - rewrite Hdist, Hstep. reflexivity.
  - apply forward_direction.
  - rewrite Hpos, Hstep. reflexivity.
  - intros Hs Ht Hd. unfold step. rewrite Hspeed. unfold frameSpeed.
    rewrite <- Htarget, Ht, Hs, Hd. lra.
Qed.

(** The frame law on a frame of 0.05 time units of [driving]. *)
Lemma C5_speed_smoothing_then_advance_witness :
  let app' := updateSimulation pointHits 0.05 driving in
  let step := carSpeed (sim app') * 0.05 * 20 in
  carSpeed (sim app')
  = carSpeed (sim driving)
    + (targetSpeed (sim app') - carSpeed (sim driving)) * 0.1 /\
  distance (sim app') = distance (sim driving) + step /\
  applyAxisAngle (mkVector3 0 0 1) axisY (carRotation (sim driving))
  = mkVector3 (sin (carRotation (sim driving))) 0
              (cos (carRotation (sim driving))) /\
  carPosition (sim app')
  = mkVector3
      (x (carPosition (sim driving)) + sin (carRotation (sim driving)) * step)
      (y (carPosition (sim driving)))
      (z (carPosition (sim driving)) + cos (carRotation (sim driving)) * step) /\
  (carSpeed (sim driving) = 0.3 -> targetSpeed (sim app') = 0.3 ->
   0.05 = 0.05 -> step = 0.3) /\
  (Binary64.distanceStep (Binary64.smoothedSpeed 0.3 0.3) 0.05 = 0.3)%float.
Proof.
  apply (C5_speed_smoothing_then_advance pointHits 0.05 driving
           (mkObject3D (mkVector3 1 0.5 0) 0)); reflexivity.
Defined.

End Kinematics.

(** ** Lane keeping within a frame *)

Lemma updateAdaptiveCruiseControl_roadCurves s :
  roadCurves (updateAdaptiveCruiseControl s) = roadCurves s.
Proof. unfold updateAdaptiveCruiseControl. destruct (js_lt _ _); reflexivity. Qed.

Lemma updateAdaptiveCruiseControl_carRotation s :
  carRotation (updateAdaptiveCruiseControl s) = carRotation s.
Proof. unfold updateAdaptiveCruiseControl. destruct (js_lt _ _); reflexivity. Qed.

(** In every executed frame in which lane keeping is enabled and the
    segment list is not empty, the amount added to the heading
    ([carRotation]) is what [steering] yields for the car's new position,
    the speed of that frame and the segment nearest to the new position
    in ground-plane Euclidean distance, the lowest index winning ties. *)
Lemma updateSimulation_steering :
  forall (intersectObjects : Ray -> list Object3D -> list Intersection)
         (delta : R) (app : App) (c : Object3D),
    car (sim app) = Some c ->
    initialized (sim app) = true ->
    laneKeepingActive app = true ->
    roadCurves (sim app) <> [] ->
    let app' := updateSimulation intersectObjects delta app in
    exists n segment,
      nearest (carPosition (sim app')) (roadCurves (sim app)) n segment /\
      carRotation (sim app')
      = carRotation (sim app)
        + steering (carPosition (sim app')) segment (carSpeed (sim app')).
Proof.
  intros io delta app c Hcar Hinit Hlk Hne app'.
  destruct (updateSimulation_kinematics io delta app c Hcar Hinit)
    as (Hspeed & _ & _ & _ & Hpos).
  fold app' in Hspeed, Hpos.
  set (before := if adaptiveCruiseActive app
                 then updateAdaptiveCruiseControl (sim app) else sim app).
  assert (Hcar1 : car before = Some c).
  { unfold before. destruct (adaptiveCruiseActive app);
      rewrite ?updateAdaptiveCruiseControl_car; exact Hcar. }
  assert (Hcurves1 : roadCurves before = roadCurves (sim app)).
  { unfold before. destruct (adaptiveCruiseActive app);
      rewrite ?updateAdaptiveCruiseControl_roadCurves; reflexivity. }
  assert (Hrot1 : carRotation before = carRotation (sim app)).
  { unfold before. destruct (adaptiveCruiseActive app);
      rewrite ?updateAdaptiveCruiseControl_carRotation; reflexivity. }
  set (speed' := carSpeed before + (targetSpeed before - carSpeed before) * 0.1).
  set (forward := applyAxisAngle (mkVector3 0 0 1) axisY (carRotation before)).
  set (position' :=
         mkVector3
           (x (carPosition before) + x forward * (speed' * delta * 20))
           (y (carPosition before))
           (z (carPosition before) + z forward * (speed' * delta * 20))).
  set (moved := moveCar speed' position'
                        (distance before + speed' * delta * 20) before).
  assert (Happ : sim app' = updateSensors io (updateLaneKeeping moved)).
  { unfold app', updateSimulation. rewrite Hcar, Hinit, Hlk. reflexivity. }
  assert (Hmoved : car moved = Some (mkObject3D position' (rotation_y c))).
  { unfold moved. cbn [car moveCar]. rewrite Hcar1. reflexivity. }
  assert (Hne' : roadCurves moved <> []).
  { unfold moved. cbn [roadCurves moveCar]. rewrite Hcurves1. exact Hne. }
  destruct (updateLaneKeeping_steering_law moved _ Hmoved Hne')
    as (n & segment & Hnear & Hrot & _).
  cbn [obj_position] in Hnear, Hrot.
  assert (Hp : carPosition (sim app') = position').
  { rewrite Happ, updateSensors_carPosition, updateLaneKeeping_carPosition.
    reflexivity. }
  assert (Hs : carSpeed (sim app') = speed').
  { rewrite Happ, updateSensors_carSpeed, updateLaneKeeping_carSpeed.
    reflexivity. }
  exists n, segment. rewrite Hp, Hs. split.
  - rewrite <- Hcurves1. exact Hnear.
  - rewrite Happ, updateSensors_carRotation, Hrot.
    unfold moved. cbn [carRotation carSpeed moveCar]. rewrite Hrot1.
    reflexivity.
Qed.

(** One unit to the right of a straight segment at speed 0.3, lane keeping
    alone turns the heading by [-0.5 * 0.3]. *)
Example steering_beside_the_road :
  carRotation (updateLaneKeeping besideTheRoad) = - 0.15.
Proof.
  assert (Hne : roadCurves besideTheRoad <> []) by discriminate.
  destruct (updateLaneKeeping_steering_law besideTheRoad
              (mkObject3D (mkVector3 1 0.5 0) 0) eq_refl Hne)
    as (n & segment & (Hnth & _) & Hrot & _).
  assert (Hseg : segment = mkRoadCurve (mkPoint 0 0) 0 0).
  { destruct n as [|[|n]]; cbn in Hnth; try discriminate.
    injection Hnth as <-. reflexivity. }
  rewrite Hrot, Hseg. unfold steering. cbv zeta.
  cbn [obj_position angle curvature position px pz x z].
  change (carRotation besideTheRoad) with 0.
  change (carSpeed besideTheRoad) with 0.3.
  rewrite Ropp_0, cos_0, sin_0. lra.
Qed.

(** ** Termination of a run *)

Section EndOfRoad.

Variable intersectObjects : Ray -> list Object3D -> list Intersection.

Lemma updateSimulation_running delta app c :
  car (sim app) = Some c ->
  initialized (sim app) = true ->
  let app' := updateSimulation intersectObjects delta app in
  isSimulationRunning app' =
    (if Rltb (roadLength (sim app')) (distance (sim app'))
     then false else isSimulationRunning app) /\
  car (sim app') <> None /\
  initialized (sim app') = true.
Proof.
  intros Hcar Hinit. unfold updateSimulation. rewrite Hcar, Hinit.
  cbn [negb sim isSimulationRunning]. split; [reflexivity|].
  rewrite updateSensors_car, updateSensors_initialized.
  destruct (laneKeepingActive app), (adaptiveCruiseActive app);
    rewrite ?updateLaneKeeping_initialized, ?updateLaneKeeping_car_present;
    cbn [car initialized moveCar];
    rewrite ?updateAdaptiveCruiseControl_car,
      ?updateAdaptiveCruiseControl_initialized, ?Hcar, ?Hinit;
    (split; [discriminate | reflexivity]).
Qed.

(** What a frame does to the running flag of an initialised component. *)
Lemma animate_running delta app :
  car (sim app) <> None ->
  initialized (sim app) = true ->
  let app' := animate intersectObjects delta app in
  car (sim app') <> None /\
  initialized (sim app') = true /\
  roadLength (sim app') = roadLength (sim app) /\
  (isSimulationRunning app = false -> app' = app) /\
  (isSimulationRunning app = true ->
   isSimulationRunning app' =
     negb (Rltb (roadLength (sim app)) (distance (sim app')))).
Proof.
  intros Hcar Hinit. unfold animate.
  destruct (isSimulationRunning app) eqn:Hrun.
  - destruct (car (sim app)) as [c|] eqn:Ec; [|contradiction].
    destruct (updateSimulation_running delta app c Ec Hinit) as (Hr & Hc & Hi).
    destruct (updateSimulation_kinematics intersectObjects delta app c Ec Hinit)
      as (_ & _ & _ & Hlen & _).
    cbv zeta in *. rewrite Hlen in Hr.
    split; [exact Hc|]. split; [exact Hi|]. split; [exact Hlen|].
    split; [discriminate|].
    intros _. rewrite Hr, Hrun.
    destruct (Rltb _ _); reflexivity.
  - split; [exact Hcar|]. split; [exact Hinit|]. split; [reflexivity|].
    split; [reflexivity | discriminate].
Qed.

Section Frames.

Variable deltas : nat -> R.
Variable app : App.
Hypothesis Hcar : car (sim app) <> None.
Hypothesis Hinit : initialized (sim app) = true.

Lemma frames_initialised n :
  car (sim (frames intersectObjects deltas n app)) <> None /\
  initialized (sim (frames intersectObjects deltas n app)) = true /\
  roadLength (sim (frames intersectObjects deltas n app))
  = roadLength (sim app).
Proof.
  induction n as [|n (Hc & Hi & Hl)]; [auto|].
  cbn [frames].
  destruct (animate_running (deltas n) _ Hc Hi) as (Hc' & Hi' & Hl' & _).
  cbv zeta in *. rewrite Hl' , Hl. auto.
Qed.

(** A run started running is still running after [n] frames exactly when
    none of these frames left the distance above the road length. *)
Lemma frames_running n :
  isSimulationRunning app = true ->
  isSimulationRunning (frames intersectObjects deltas n app) = true <->
  (forall k, (1 <= k <= n)%nat ->
     distance (sim (frames intersectObjects deltas k app))
     <= roadLength (sim app)).
Proof.
  intros Hrun. induction n as [|n IH].
  - cbn [frames]. split; [intros _ k Hk; lia | intros _; exact Hrun].
  - destruct (frames_initialised n) as (Hc & Hi & Hl).
    destruct (animate_running (deltas n) _ Hc Hi) as (_ & _ & _ & Hoff & Hon).
    cbv zeta in *. cbn [frames].
    destruct (isSimulationRunning (frames intersectObjects deltas n app))
      eqn:Hn.
    + rewrite (Hon eq_refl), Hl. unfold Rltb.
      destruct (Rlt_dec _ _) as [Hgt|Hle]; cbn [negb]; split.
      * discriminate.
      * intros Hall. specialize (Hall (S n)). cbn [frames] in Hall.
        assert (1 <= S n <= S n)%nat as Hk by lia. specialize (Hall Hk). lra.
      * intros _ k Hk. destruct (Nat.eq_dec k (S n)) as [->|Hne].
        -- cbn [frames]. lra.
        -- apply (proj1 IH eq_refl). lia.
      * reflexivity.
    + rewrite (Hoff eq_refl), Hn. split; [discriminate|].
      intros Hall. apply (proj2 IH). intros k Hk. apply Hall. lia.
Qed.

End Frames.

End EndOfRoad.

(** C4. In a run of frames of an initialised, running component (no stop
    command in between), the running flag falls at frame [n+1] exactly
    when frame [n+1] is the first frame whose accumulated distance exceeds
    the road length: every earlier frame left the distance at or below it,
    and no frame stops the run while that is so. *)
Theorem C4_stops_at_first_frame_past_the_road :
  forall (intersectObjects : Ray -> list Object3D -> list Intersection)
         (deltas : nat -> R) (app : App) (n : nat),
    car (sim app) <> None ->
    initialized (sim app) = true ->
    isSimulationRunning app = true ->
    (isSimulationRunning (frames intersectObjects deltas n app) = true /\
     isSimulationRunning (frames intersectObjects deltas (S n) app) = false)
    <->
    ((forall k, (1 <= k <= n)%nat ->
        distance (sim (frames intersectObjects deltas k app))
        <= roadLength (sim app)) /\
     roadLength (sim app)
     < distance (sim (frames intersectObjects deltas (S n) app))).
Proof.
  intros io deltas app n Hcar Hinit Hrun.
  pose proof (frames_running io deltas app Hcar Hinit n Hrun) as Hn.
  pose proof (frames_running io deltas app Hcar Hinit (S n) Hrun) as HSn.
  split.
  - intros [Hon Hoff]. split; [exact (proj1 Hn Hon)|].
    destruct (Rlt_dec (roadLength (sim app))
                (distance (sim (frames io deltas (S n) app)))) as [Hlt|Hge];
      [exact Hlt|].
    assert (Hall : forall k, (1 <= k <= S n)%nat ->
              distance (sim (frames io deltas k app)) <= roadLength (sim app)).
    { intros k Hk. destruct (Nat.eq_dec k (S n)) as [->|Hne]; [lra|].
      apply (proj1 Hn Hon). lia. }
    rewrite (proj2 HSn Hall) in Hoff. discriminate.
  - intros [Hall Hlt]. split; [exact (proj2 Hn Hall)|].
    destruct (isSimulationRunning (frames io deltas (S n) app)) eqn:E;
      [|reflexivity].
    pose proof (proj1 HSn eq_refl (S n)) as Hle.
    assert (1 <= S n <= S n)%nat as Hk by lia. specialize (Hle Hk). lra.
Qed.

(** The first frame of a run of [driving] with frames of 100 time units. *)
Lemma C4_stops_at_first_frame_past_the_road_witness :
  (isSimulationRunning (frames pointHits (fun _ => 100) 0 driving) = true /\
   isSimulationRunning (frames pointHits (fun _ => 100) 1 driving) = false)
  <->
  ((forall k, (1 <= k <= 0)%nat ->
      distance (sim (frames pointHits (fun _ => 100) k driving))
      <= roadLength (sim driving)) /\
   roadLength (sim driving)
   < distance (sim (frames pointHits (fun _ => 100) 1 driving))).
Proof.
  apply (C4_stops_at_first_frame_past_the_road pointHits (fun _ => 100)
           driving 0).
  - discriminate.
  - reflexivity.
  - reflexivity.
Defined.

(** A frame of 100 time units takes the car 600 units down a road of
    length 500: the run stops on that frame. *)
Example long_frame_ends_the_run :
  distance (sim (frames pointHits (fun _ => 100) 1 driving)) = 600 /\
  isSimulationRunning (frames pointHits (fun _ => 100) 1 driving) = false.
Proof.
  assert (Hcar : car (sim driving) = Some (mkObject3D (mkVector3 1 0.5 0) 0))
    by reflexivity.
  assert (Hinit : initialized (sim driving) = true) by reflexivity.
  destruct (updateSimulation_kinematics pointHits 100 driving _ Hcar Hinit)
    as (_ & _ & Hdist & _).
  assert (Hstep : frameStep 100 driving = 600).
  { unfold frameStep, frameSpeed, frameTarget.
    change (adaptiveCruiseActive driving) with true. cbv iota.
    rewrite updateAdaptiveCruiseControl_no_hit by reflexivity.
    change (carSpeed (sim driving)) with 0.3. lra. }
  cbv zeta in Hdist. rewrite Hstep in Hdist.
  change (distance (sim driving)) with 0 in Hdist.
  assert (Hd : distance (sim (frames pointHits (fun _ => 100) 1 driving)) = 600).
  { cbn [frames]. unfold animate.
    change (isSimulationRunning driving) with true. cbv iota.
    rewrite Hdist. lra. }
  split; [exact Hd|].
  assert (Hne : car (sim driving) <> None) by (rewrite Hcar; discriminate).
  destruct (animate_running pointHits 100 driving Hne Hinit)
    as (_ & _ & _ & _ & Hon).
  cbn [frames]. cbv zeta in Hon. rewrite (Hon eq_refl).
  cbn [frames] in Hd. rewrite Hd.
  change (roadLength (sim driving)) with 500.
  rewrite Rltb_true by lra. reflexivity.
Qed.

(** ** Speed bounds *)

Lemma updateAdaptiveCruiseControl_range s :
  0.03 <= targetSpeed (updateAdaptiveCruiseControl s) <= 0.3.
Proof.
  destruct (front (sensorReadings s)) as [d|] eqn:Hf.
  - destruct (Rlt_dec d 10) as [Hd|Hd].
    + rewrite (updateAdaptiveCruiseControl_below s d Hf Hd).
      pose proof (Rmax_tenth_le_1 d Hd). lra.
    + rewrite (updateAdaptiveCruiseControl_clear s d Hf) by lra. lra.
  - rewrite (updateAdaptiveCruiseControl_no_hit s Hf). lra.
Qed.

Section SpeedBounds.

Variable intersectObjects : Ray -> list Object3D -> list Intersection.

Lemma updateSimulation_unchanged delta app :
  car (sim app) = None \/ initialized (sim app) = false ->
  updateSimulation intersectObjects delta app = app.
Proof.
  intros [H|H]; unfold updateSimulation; rewrite H; [reflexivity|].
  destruct (car (sim app)); reflexivity.
Qed.

Lemma updateSimulation_range delta app :
  speedsInRange (sim app) ->
  speedsInRange (sim (updateSimulation intersectObjects delta app)).
Proof.
  intros (Hs & Ht).
  destruct (car (sim app)) as [c|] eqn:Hcar.
  2:{ rewrite updateSimulation_unchanged by (left; exact Hcar). split; assumption. }
  destruct (initialized (sim app)) eqn:Hinit.
  2:{ rewrite updateSimulation_unchanged by (right; exact Hinit).
      split; assumption. }
  destruct (updateSimulation_kinematics intersectObjects delta app c Hcar Hinit)
    as (Hspeed & Htarget & _).
  cbv zeta in *. unfold speedsInRange. rewrite Hspeed, Htarget.
  assert (Hft : 0.03 <= frameTarget app <= 0.3).
  { unfold frameTarget. destruct (adaptiveCruiseActive app);
      [apply updateAdaptiveCruiseControl_range | exact Ht]. }
  unfold frameSpeed. lra.
Qed.

Lemma generateRoad_speeds random app app' :
  generateRoad random app = Some app' ->
  carSpeed (sim app') = carSpeed (sim app) /\
  targetSpeed (sim app') = targetSpeed (sim app) /\
  scene (sim app') = true.
Proof.
  intros Hgen. destruct (scene (sim app)) eqn:Hscene.
  - destruct (generateRoad_spec random app Hscene)
      as (app'' & Hgen' & _ & _ & _ & _ & _ & _ & _ & Hs & Ht & _ & _ & Hsc & _).
    rewrite Hgen in Hgen'. injection Hgen' as <-. auto.
  - rewrite (generateRoad_no_scene random app Hscene) in Hgen. discriminate.
Qed.

Lemma mountEffect_inv random app app' :
  mountEffect random app = Some app' ->
  exists a,
    generateRoad random (set_sim (setupCar (createScene (sim app))) app)
    = Some a /\
    app' = set_sim (set_initialized (sim a)) a.
Proof.
  unfold mountEffect.
  destruct (generateRoad random _) as [a|]; [|discriminate].
  intros H. injection H as <-. exists a. split; reflexivity.
Qed.

Lemma handleStartSimulation_inv random app app' :
  handleStartSimulation random app = Some app' ->
  (isSimulationRunning app = true /\ app' = app) \/
  (isSimulationRunning app = false /\
   exists a, generateRoad random app = Some a /\
             app' = set_isSimulationRunning true a).
Proof.
  unfold handleStartSimulation.
  destruct (isSimulationRunning app); cbn [negb].
  - intros H. injection H as <-. left. split; reflexivity.
  - destruct (generateRoad random app) as [a|]; [|discriminate].
    intros H. injection H as <-. right. split; [reflexivity|].
    exists a. split; reflexivity.
Qed.

Lemma mountEffect_range random app app' :
  mountEffect random app = Some app' ->
  speedsInRange (sim app) -> speedsInRange (sim app').
Proof.
  intros Hm Hr.
  destruct (mountEffect_inv _ _ _ Hm) as (a & Hgen & ->).
  destruct (generateRoad_speeds _ _ _ Hgen) as (Hs & Ht & _).
  destruct Hr as (Hr1 & Hr2).
  split; [change (0.03 <= carSpeed (sim a) <= 0.3)
         | change (0.03 <= targetSpeed (sim a) <= 0.3)].
  - rewrite Hs. exact Hr1.
  - rewrite Ht. exact Hr2.
Qed.

Lemma handleStartSimulation_range random app app' :
  handleStartSimulation random app = Some app' ->
  speedsInRange (sim app) -> speedsInRange (sim app').
Proof.
  intros Hm Hr.
  destruct (handleStartSimulation_inv _ _ _ Hm)
    as [(_ & ->) | (_ & a & Hgen & ->)]; [exact Hr|].
  destruct (generateRoad_speeds _ _ _ Hgen) as (Hs & Ht & _).
  destruct Hr as (Hr1 & Hr2).
  split; [change (0.03 <= carSpeed (sim a) <= 0.3)
         | change (0.03 <= targetSpeed (sim a) <= 0.3)].
  - rewrite Hs. exact Hr1.
  - rewrite Ht. exact Hr2.
Qed.

Lemma animate_range delta app :
  speedsInRange (sim app) ->
  speedsInRange (sim (animate intersectObjects delta app)).
Proof.
  intros Hr. unfold animate.
  destruct (isSimulationRunning app);
    [apply updateSimulation_range|]; exact Hr.
Qed.

Lemma step_range e app app' :
  step intersectObjects e app = Some app' ->
  speedsInRange (sim app) -> speedsInRange (sim app').
Proof.
  intros Hstep Hr. destruct e as [random|random| |delta| |].
  - exact (mountEffect_range random app app' Hstep Hr).
  - exact (handleStartSimulation_range random app app' Hstep Hr).
  - injection Hstep as <-. unfold handleStopSimulation.
    destruct (isSimulationRunning app); exact Hr.
  - injection Hstep as <-. apply animate_range. exact Hr.
  - injection Hstep as <-. exact Hr.
  - injection Hstep as <-. exact Hr.
Qed.

Lemma run_range events : forall app app',
  run intersectObjects events app = Some app' ->
  speedsInRange (sim app) -> speedsInRange (sim app').
Proof.
  induction events as [|e events IH]; intros app app' Hrun Hr; cbn [run] in Hrun.
  - injection Hrun as <-. exact Hr.
  - destruct (step intersectObjects e app) as [a|] eqn:Hstep; [|discriminate].
    exact (IH a app' Hrun (step_range e app a Hstep Hr)).
Qed.

End SpeedBounds.

(** C10. In every state reached from the initial component by mounting,
    start and stop commands, toggles and frames, the current speed and the
    target speed lie in [[0.03, 0.3]]: both start at 0.3, the cruise
    controller only produces targets in that interval, and the smoothing
    step is a convex combination of speed and target. *)
Theorem C10_speeds_stay_in_range :
  forall (intersectObjects : Ray -> list Object3D -> list Intersection)
         (events : list Event) (app : App),
    run intersectObjects events initialApp = Some app ->
    0.03 <= carSpeed (sim app) <= 0.3 /\
    0.03 <= targetSpeed (sim app) <= 0.3.
Proof.
  intros io events app Hrun.
  apply (run_range io events initialApp app Hrun).
  split; cbn; lra.
Qed.

(** ** Runs do not fail once the scene exists *)

Section Totality.

Variable intersectObjects : Ray -> list Object3D -> list Intersection.

Lemma updateSimulation_scene delta app :
  scene (sim (updateSimulation intersectObjects delta app)) = scene (sim app).
Proof.
  unfold updateSimulation.
  destruct (car (sim app)); [|reflexivity].
  destruct (initialized (sim app)); [|reflexivity].
  cbn [negb sim].
  assert (Hs : forall s, scene (updateSensors intersectObjects s) = scene s).
  { intros s. unfold updateSensors.
    destruct (car s); [destruct (sensors s)|]; reflexivity. }
  assert (Hl : forall s, scene (updateLaneKeeping s) = scene s).
  { intros s. unfold updateLaneKeeping.
    destruct (car s); [destruct (roadCurves s)|]; reflexivity. }
  assert (Ha : forall s, scene (updateAdaptiveCruiseControl s) = scene s).
  { intros s. unfold updateAdaptiveCruiseControl.
    destruct (js_lt _ _); reflexivity. }
  rewrite Hs.
  destruct (laneKeepingActive app), (adaptiveCruiseActive app);
    rewrite ?Hl; cbn [scene moveCar]; rewrite ?Ha; reflexivity.
Qed.

Lemma mountEffect_total random app :
  exists app',
    mountEffect random app = Some app' /\
    scene (sim app') = true /\
    car (sim app') <> None /\
    initialized (sim app') = true /\
    distance (sim app') = 0 /\
    carSpeed (sim app') = carSpeed (sim app) /\
    sensorReadings (sim app') = sensorReadings (sim app) /\
    roadLength (sim app') = roadLength (sim app) /\
    isSimulationRunning app' = isSimulationRunning app /\
    adaptiveCruiseActive app' = adaptiveCruiseActive app.
Proof.
  destruct (generateRoad_spec random
              (set_sim (setupCar (createScene (sim app))) app) eq_refl)
    as (a & Hgen & _ & _ & Hd & _ & _ & _ & _ & Hs & _ & Hl & Hr & Hsc & _
        & Hcar & Hsr & _ & _ & Hacc).
  exists (set_sim (set_initialized (sim a)) a).
  unfold mountEffect. rewrite Hgen.
  split; [reflexivity|].
  split; [exact Hsc|].
  split; [apply Hcar; discriminate|].
  split; [reflexivity|].
  split; [exact Hd|].
  split; [exact Hs|].
  split; [exact Hsr|].
  split; [exact Hl|].
  split; [exact Hr | exact Hacc].
Qed.

Lemma step_total e app :
  scene (sim app) = true ->
  exists app',
    step intersectObjects e app = Some app' /\ scene (sim app') = true.
Proof.
  intros Hscene. destruct e as [random|random| |delta| |].
  - destruct (mountEffect_total random app) as (a & Hm & Hs & _).
    exists a. split; assumption.
  - change (step intersectObjects (Start random) app)
      with (handleStartSimulation random app).
    unfold handleStartSimulation.
    destruct (isSimulationRunning app); cbn [negb].
    + exists app. split; [reflexivity | exact Hscene].
    + destruct (generateRoad_spec random app Hscene)
        as (a & Hgen & _ & _ & _ & _ & _ & _ & _ & _ & _ & _ & _ & Hsc & _).
      rewrite Hgen. exists (set_isSimulationRunning true a).
      split; [reflexivity | exact Hsc].
  - exists (handleStopSimulation app). split; [reflexivity|].
    unfold handleStopSimulation.
    destruct (isSimulationRunning app); exact Hscene.
  - exists (animate intersectObjects delta app). split; [reflexivity|].
    unfold animate. destruct (isSimulationRunning app); [|exact Hscene].
    rewrite updateSimulation_scene. exact Hscene.
  - exists (toggleLaneKeeping app). split; [reflexivity | exact Hscene].
  - exists (toggleAdaptiveCruise app). split; [reflexivity | exact Hscene].
Qed.

Lemma run_total events : forall app,
  scene (sim app) = true ->
  exists app', run intersectObjects events app = Some app'.
Proof.
  induction events as [|e events IH]; intros app Hscene.
  - exists app. reflexivity.
  - destruct (step_total e app Hscene) as (a & Hstep & Hs).
    cbn [run]. rewrite Hstep. exact (IH a Hs).
Qed.

(** Mounting first, nothing that follows can fail. *)
Lemma run_mounted_total random events app :
  exists app', run intersectObjects (Mount random :: events) app = Some app'.
Proof.
  destruct (mountEffect_total random app) as (a & Hm & Hs & _).
  cbn [run]. change (step intersectObjects (Mount random) app)
    with (mountEffect random app).
  rewrite Hm. exact (run_total events a Hs).
Qed.

End Totality.

(** The bounds after mounting, starting and one frame. *)
Lemma C10_speeds_stay_in_range_witness :
  exists app,
    run pointHits [Mount (fun _ => 0.5); Start (fun _ => 0.5); Frame 0.05]
        initialApp = Some app /\
    0.03 <= carSpeed (sim app) <= 0.3 /\
    0.03 <= targetSpeed (sim app) <= 0.3.
Proof.
  destruct (run_mounted_total pointHits (fun _ => 0.5)
              [Start (fun _ => 0.5); Frame 0.05] initialApp) as (app & Hrun).
  exists app. split; [exact Hrun|].
  exact (C10_speeds_stay_in_range pointHits _ app Hrun).
Defined.

(** ** Sensors *)

Lemma minimumDistance_lower_bound hits : forall m,
  minimumDistance hits = Fin m ->
  (exists h, In h hits /\ hit_distance h = m) /\
  (forall h, In h hits -> m <= hit_distance h).
Proof.
  induction hits as [|h0 rest IH]; intros m Hm; [discriminate|].
  cbn [minimumDistance] in Hm.
  destruct (minimumDistance rest) as [m'|] eqn:Hrest.
  - injection Hm as <-. destruct (IH m' eq_refl) as ((h' & Hin & Hd) & Hlb).
    split.
    + unfold Rmin. destruct (Rle_dec (hit_distance h0) m').
      * exists h0. split; [left; reflexivity | reflexivity].
      * exists h'. split; [right; exact Hin | exact Hd].
    + intros h [<-|Hin'].
      * apply Rmin_l.
      * apply Rle_trans with m'; [apply Rmin_r | exact (Hlb h Hin')].
  - injection Hm as <-.
    assert (rest = []) as ->.
    { destruct rest as [|h1 rest']; [reflexivity|].
      cbn [minimumDistance] in Hrest.
      destruct (minimumDistance rest'); discriminate. }
    split.
    + exists h0. split; [left; reflexivity | reflexivity].
    + intros h [<-|[]]. lra.
Qed.

(** On a list ordered nearest first, the first hit is at the minimum
    distance: what [updateSensors] stores is that minimum. *)
Lemma reading_minimum hits :
  Sorted nearer hits -> reading hits = minimumDistance hits.
Proof.
  intros Hs.
  assert (Htrans : Relations_1.Transitive nearer).
  { intros a b c Hab Hbc. unfold nearer in *. lra. }
  apply (Sorted_StronglySorted Htrans) in Hs.
  destruct Hs as [|h rest Hrest Hall]; [reflexivity|].
  cbn [reading minimumDistance].
  destruct (minimumDistance rest) as [m|] eqn:Hm; [|reflexivity].
  destruct (minimumDistance_lower_bound rest m Hm) as ((h' & Hin & <-) & _).
  rewrite Forall_forall in Hall. specialize (Hall h' Hin). unfold nearer in Hall.
  rewrite Rmin_left by exact Hall. reflexivity.
Qed.

Lemma insertHit_sorted h hits :
  Sorted nearer hits -> Sorted nearer (insertHit h hits).
Proof.
  induction hits as [|h' rest IH]; intros Hs; cbn [insertHit].
  - repeat constructor.
  - destruct (Rle_dec (hit_distance h) (hit_distance h')) as [Hle|Hgt].
    + constructor; [exact Hs | constructor; exact Hle].
    + inversion Hs as [|? ? Hrest Hhd]; subst.
      constructor; [exact (IH Hrest)|].
      destruct rest as [|h'' rest']; cbn [insertHit].
      * constructor. unfold nearer. lra.
      * destruct (Rle_dec (hit_distance h) (hit_distance h'')).
        -- constructor. unfold nearer. lra.
        -- inversion Hhd; subst. constructor. assumption.
Qed.

Lemma pointHits_sorted ray objects : Sorted nearer (pointHits ray objects).
Proof.
  induction objects as [|o rest IH]; cbn [pointHits]; [constructor|].
  apply insertHit_sorted. exact IH.
Qed.

(** C7. Given a raycaster that returns its hits nearest first and finds
    nothing among no objects (the behaviour three.js documents for
    [intersectObjects]), each of the three readings stored by
    [updateSensors] is the minimum intersection distance among the hits
    along that sensor's ray, and [Infinity] when the ray hits nothing; with
    no obstacles all three readings are [Infinity]. *)
Theorem C7_readings_are_nearest_hits :
  forall (intersectObjects : Ray -> list Object3D -> list Intersection),
    (forall ray objects, Sorted nearer (intersectObjects ray objects)) ->
    (forall ray, intersectObjects ray [] = []) ->
    forall (simulation : Simulation) (c : Object3D),
      car simulation = Some c ->
      sensors simulation = true ->
      let readings := sensorReadings (updateSensors intersectObjects simulation) in
      front readings
      = minimumDistance (intersectObjects (frontRay c) (obstacles simulation)) /\
      left readings
      = minimumDistance (intersectObjects (leftRay c) (obstacles simulation)) /\
      right readings
      = minimumDistance (intersectObjects (rightRay c) (obstacles simulation)) /\
      (forall ray, intersectObjects ray (obstacles simulation) = [] ->
                   minimumDistance (intersectObjects ray (obstacles simulation))
                   = Infinity) /\
      (obstacles simulation = [] ->
       readings = mkSensorReadings Infinity Infinity Infinity).
Proof.
  intros io Hsorted Hnone simulation c Hcar Hsensors readings.
  assert (Hr : readings
               = mkSensorReadings
                   (reading (io (frontRay c) (obstacles simulation)))
                   (reading (io (leftRay c) (obstacles simulation)))
                   (reading (io (rightRay c) (obstacles simulation)))).
  { unfold readings, updateSensors. rewrite Hcar, Hsensors. reflexivity. }
  rewrite Hr. cbn [front left right].
  rewrite !reading_minimum by apply Hsorted.
  repeat split.
  - intros ray ->. reflexivity.
  - intros ->. rewrite !Hnone. reflexivity.
Qed.

(** The readings of [besideTheRoad] under the point-obstacle raycaster. *)
Lemma C7_readings_are_nearest_hits_witness :
  let readings := sensorReadings (updateSensors pointHits besideTheRoad) in
  let c := mkObject3D (mkVector3 1 0.5 0) 0 in
  front readings
  = minimumDistance (pointHits (frontRay c) (obstacles besideTheRoad)) /\
  left readings
  = minimumDistance (pointHits (leftRay c) (obstacles besideTheRoad)) /\
  right readings
  = minimumDistance (pointHits (rightRay c) (obstacles besideTheRoad)) /\
  (forall ray, pointHits ray (obstacles besideTheRoad) = [] ->
               minimumDistance (pointHits ray (obstacles besideTheRoad))
               = Infinity) /\
  (obstacles besideTheRoad = [] ->
   readings = mkSensorReadings Infinity Infinity Infinity).
Proof.
  apply (C7_readings_are_nearest_hits pointHits pointHits_sorted
           (fun _ => eq_refl) besideTheRoad
           (mkObject3D (mkVector3 1 0.5 0) 0)); reflexivity.
Defined.

(** ** The start command *)

Lemma handleStartSimulation_running random app :
  isSimulationRunning app = true ->
  handleStartSimulation random app = Some app.
Proof.
  intros Hrun. unfold handleStartSimulation. rewrite Hrun. reflexivity.
Qed.

Lemma handleStartSimulation_fresh random app :
  isSimulationRunning app = false ->
  scene (sim app) = true ->
  exists app',
    handleStartSimulation random app = Some app' /\
    isSimulationRunning app' = true /\
    roadCurves (sim app') = generatedCurves random (roadLength (sim app)) /\
    obstacles (sim app')
    = generatedObstacles random (roadLength (sim app)) (roadWidth (sim app)) /\
    distance (sim app') = 0 /\
    shownDistance app' = 0%Z /\
    speed app' = 0%Z /\
    carSpeed (sim app') = carSpeed (sim app) /\
    targetSpeed (sim app') = targetSpeed (sim app) /\
    (car (sim app) <> None -> car (sim app') <> None) /\
    initialized (sim app') = initialized (sim app) /\
    sensorReadings (sim app') = sensorReadings (sim app) /\
    roadLength (sim app') = roadLength (sim app) /\
    adaptiveCruiseActive app' = adaptiveCruiseActive app.
Proof.
  intros Hrun Hscene.
  destruct (generateRoad_spec random app Hscene)
    as (a & Hgen & Hcurves & Hobs & Hd & _ & _ & Hsd & Hsp & Hs & Ht & Hl & _
        & _ & Hi & Hcar & Hsr & _ & _ & Hacc).
  exists (set_isSimulationRunning true a).
  unfold handleStartSimulation. rewrite Hrun, Hgen. cbn [negb].
  split; [reflexivity|]. split; [reflexivity|].
  split; [exact Hcurves|]. split; [exact Hobs|]. split; [exact Hd|].
  split; [exact Hsd|]. split; [exact Hsp|]. split; [exact Hs|].
  split; [exact Ht|]. split; [exact Hcar|]. split; [exact Hi|].
  split; [exact Hsr|]. split; [exact Hl | exact Hacc].
Qed.

(** C8, as the code has it.  The start handler is guarded by
    [!isSimulationRunning]: while the simulation is running it changes
    nothing.  When the simulation is not running (and the scene exists) it
    regenerates the road and the obstacles from fresh random draws, resets
    the cumulative distance and the displayed distance and speed to 0 and
    sets the running flag; the vehicle's own speed and target speed are
    kept. *)
Theorem C8_start_regenerates_unless_running :
  (forall random app,
      isSimulationRunning app = true ->
      handleStartSimulation random app = Some app) /\
  (forall random app,
      isSimulationRunning app = false ->
      scene (sim app) = true ->
      exists app',
        handleStartSimulation random app = Some app' /\
        isSimulationRunning app' = true /\
        roadCurves (sim app') = generatedCurves random (roadLength (sim app)) /\
        obstacles (sim app')
        = generatedObstacles random (roadLength (sim app))
                             (roadWidth (sim app)) /\
        distance (sim app') = 0 /\
        shownDistance app' = 0%Z /\
        speed app' = 0%Z /\
        carSpeed (sim app') = carSpeed (sim app) /\
        targetSpeed (sim app') = targetSpeed (sim app)).
Proof.
  split; [exact handleStartSimulation_running|].
  intros random app Hrun Hscene.
  destruct (handleStartSimulation_fresh random app Hrun Hscene)
    as (a & H1 & H2 & H3 & H4 & H5 & H6 & H7 & H8 & H9 & _).
  exists a. repeat split; assumption.
Qed.

(** C8 as stated fails: mount, start, one frame of one time unit, then
    start again.  The second start finds the simulation running six
    distance units down the road at speed 0.3 and leaves everything as it
    is, whatever random draws it is offered. *)
Lemma C8_start_while_running_is_ignored :
  exists app,
    run pointHits [Mount (fun _ => 0.5); Start (fun _ => 0.5); Frame 1]
        initialApp = Some app /\
    isSimulationRunning app = true /\
    distance (sim app) = 6 /\
    carSpeed (sim app) = 0.3 /\
    (forall random, handleStartSimulation random app = Some app).
Proof.
  destruct (mountEffect_total (fun _ => 0.5) initialApp)
    as (a1 & Hm & Hsc1 & Hcar1 & Hi1 & _ & Hs1 & Hsr1 & Hl1 & Hr1 & Hacc1).
  destruct (handleStartSimulation_fresh (fun _ => 0.5) a1 Hr1 Hsc1)
    as (a2 & Hst & Hr2 & _ & _ & Hd2 & _ & _ & Hs2 & _ & Hcar2 & Hi2 & Hsr2
        & Hl2 & Hacc2).
  specialize (Hcar2 Hcar1).
  destruct (car (sim a2)) as [c|] eqn:Ec; [|contradiction].
  rewrite Hi1 in Hi2.
  destruct (updateSimulation_kinematics pointHits 1 a2 c Ec Hi2)
    as (Hspeed & _ & Hdist & Hlen & _).
  destruct (updateSimulation_running pointHits 1 a2 c Ec Hi2) as (Hrun & _).
  cbv zeta in *.
  assert (Hspeed0 : carSpeed (sim a2) = 0.3).
  { rewrite Hs2, Hs1. reflexivity. }
  assert (Hft : frameTarget a2 = 0.3).
  { unfold frameTarget. rewrite Hacc2, Hacc1.
    change (adaptiveCruiseActive initialApp) with true. cbv iota.
    apply updateAdaptiveCruiseControl_no_hit.
    rewrite Hsr2, Hsr1. reflexivity. }
  assert (Hfs : frameSpeed a2 = 0.3).
  { unfold frameSpeed. rewrite Hft, Hspeed0. lra. }
  assert (Hd : distance (sim (updateSimulation pointHits 1 a2)) = 6).
  { rewrite Hdist, Hd2. unfold frameStep. rewrite Hfs. lra. }
  assert (Hon : isSimulationRunning (updateSimulation pointHits 1 a2) = true).
  { rewrite Hrun, Hlen, Hl2, Hl1, Hd, Hr2.
    change (roadLength (sim initialApp)) with 500.
    rewrite Rltb_false by lra. reflexivity. }
  exists (updateSimulation pointHits 1 a2).
  split.
  { cbn [run].
    change (step pointHits (Mount (fun _ => 0.5)) initialApp)
      with (mountEffect (fun _ => 0.5) initialApp).
    rewrite Hm.
    change (step pointHits (Start (fun _ => 0.5)) a1)
      with (handleStartSimulation (fun _ => 0.5) a1).
    rewrite Hst.
    change (step pointHits (Frame 1) a2) with (Some (animate pointHits 1 a2)).
    unfold animate. rewrite Hr2. reflexivity. }
  split; [exact Hon|]. split; [exact Hd|].
  split; [rewrite Hspeed; exact Hfs|].
  intros random. apply handleStartSimulation_running. exact Hon.
Qed.

(* ================================================================= *)
(** * Further properties *)

(** ** Shape of a generated road *)

Section RoadShape.

Variable random : RandomSource.
Variable L : R.

Lemma roadCurvesLoop_step_straight n i k X Z A :
  (i < 3)%nat ->
  fst (roadCurvesLoop random L (S n) i k X Z A) =
  mkRoadCurve (mkPoint X Z) A 0
  :: fst (roadCurvesLoop random L n (S i) k
            (X + sin (A + 0) * L) (Z + cos (A + 0) * L) (A + 0)).
Proof.
  intros Hi. apply Nat.ltb_lt in Hi. cbn [roadCurvesLoop]. rewrite Hi.
  destruct (roadCurvesLoop random L n (S i) k _ _ _). reflexivity.
Qed.

Lemma roadCurvesLoop_step_drawn n i k X Z A :
  (3 <= i)%nat ->
  fst (roadCurvesLoop random L (S n) i k X Z A) =
  mkRoadCurve (mkPoint X Z) A (random k * 0.03 - 0.015)
  :: fst (roadCurvesLoop random L n (S i) (S k)
            (X + sin (A + (random k * 0.03 - 0.015)) * L)
            (Z + cos (A + (random k * 0.03 - 0.015)) * L)
            (A + (random k * 0.03 - 0.015))).
Proof.
  intros Hi. apply Nat.ltb_ge in Hi. cbn [roadCurvesLoop]. rewrite Hi.
  destruct (roadCurvesLoop random L n (S i) (S k) _ _ _). reflexivity.
Qed.

Hypothesis random_range : forall k, 0 <= random k < 1.

(** Curvatures stay in [[-0.015, 0.015)] and the heading of the [j]-th
    segment produced differs from the starting heading by at most 0.015
    per curvature drawn on the way. *)
Lemma roadCurvesLoop_bounds n : forall i k X Z A j c,
  nth_error (fst (roadCurvesLoop random L n i k X Z A)) j = Some c ->
  -0.015 <= curvature c < 0.015 /\
  A - 0.015 * INR (drawn i j) <= angle c <= A + 0.015 * INR (drawn i j).
Proof.
  induction n as [|n IH]; intros i k X Z A j c Hj.
  - destruct j; discriminate.
  - destruct (Nat.lt_ge_cases i 3) as [Hi|Hi].
    + rewrite (roadCurvesLoop_step_straight n i k X Z A Hi) in Hj.
      destruct j as [|j]; cbn [nth_error] in Hj.
      * injection Hj as <-. cbn [curvature angle].
        replace (drawn i 0) with 0%nat by (unfold drawn; lia). cbn [INR]. lra.
      * destruct (IH _ _ _ _ _ _ _ Hj) as (Hc & Ha). split; [exact Hc|].
        replace (drawn i (S j)) with (drawn (S i) j) by (unfold drawn; lia).
        lra.
    + rewrite (roadCurvesLoop_step_drawn n i k X Z A Hi) in Hj.
      pose proof (random_range k) as Hr.
      destruct j as [|j]; cbn [nth_error] in Hj.
      * injection Hj as <-. cbn [curvature angle].
        replace (drawn i 0) with 0%nat by (unfold drawn; lia). cbn [INR]. lra.
      * destruct (IH _ _ _ _ _ _ _ Hj) as (Hc & Ha). split; [exact Hc|].
        replace (drawn i (S j)) with (S (drawn (S i) j)) by (unfold drawn; lia).
        rewrite S_INR. lra.
Qed.

End RoadShape.

Lemma generatedCurves_eq random len :
  generatedCurves random len
  = fst (roadCurvesLoop random (len / 20) 20 0 0 0 0 0).
Proof.
  unfold generatedCurves, segments.
  replace (INR 20) with 20 by (simpl; lra). reflexivity.
Qed.

(** X1. Every generated road starts with a straight stretch: segments 0, 1
    and 2 have curvature exactly 0, and segments 0 to 3 have heading 0 and
    start on the z axis at [i * roadLength / 20]. *)
Theorem generateRoad_straight_entry :
  forall (random : RandomSource) (app : App),
    scene (sim app) = true ->
    exists app' c0 c1 c2 c3 rest,
      generateRoad random app = Some app' /\
      roadCurves (sim app') = c0 :: c1 :: c2 :: c3 :: rest /\
      (curvature c0 = 0 /\ curvature c1 = 0 /\ curvature c2 = 0) /\
      (angle c0 = 0 /\ angle c1 = 0 /\ angle c2 = 0 /\ angle c3 = 0) /\
      (px (position c0) = 0 /\ px (position c1) = 0 /\
       px (position c2) = 0 /\ px (position c3) = 0) /\
      (pz (position c0) = 0 /\
       pz (position c1) = roadLength (sim app) / 20 /\
       pz (position c2) = 2 * (roadLength (sim app) / 20) /\
       pz (position c3) = 3 * (roadLength (sim app) / 20)).
Proof.
  intros random app Hscene.
  destruct (generateRoad_spec random app Hscene) as (app' & Hgen & Hcurves & _).
  rewrite generatedCurves_eq in Hcurves.
  set (L := roadLength (sim app) / 20) in *.
  rewrite (roadCurvesLoop_step_straight random L 19 0) in Hcurves by lia.
  rewrite (roadCurvesLoop_step_straight random L 18 1) in Hcurves by lia.
  rewrite (roadCurvesLoop_step_straight random L 17 2) in Hcurves by lia.
  match type of Hcurves with
  | context [roadCurvesLoop random L 17 3 ?k ?X ?Z ?A] =>
    destruct (roadCurvesLoop_step random L 16 3 k X Z A) as (curv & k1 & Hstep)
  end.
  rewrite Hstep in Hcurves.
  do 6 eexists. split; [exact Hgen|]. split; [exact Hcurves|].
  cbn [curvature angle position px pz].
  repeat split; flat_trig; lra.
Qed.

(** The straight entry of the road generated from draws that are all
    [0.5]. *)
Lemma generateRoad_straight_entry_witness :
  exists app' c0 c1 c2 c3 rest,
    generateRoad (fun _ => 0.5) sceneReady = Some app' /\
    roadCurves (sim app') = c0 :: c1 :: c2 :: c3 :: rest /\
    (curvature c0 = 0 /\ curvature c1 = 0 /\ curvature c2 = 0) /\
    (angle c0 = 0 /\ angle c1 = 0 /\ angle c2 = 0 /\ angle c3 = 0) /\
    (px (position c0) = 0 /\ px (position c1) = 0 /\
     px (position c2) = 0 /\ px (position c3) = 0) /\
    (pz (position c0) = 0 /\
     pz (position c1) = roadLength (sim sceneReady) / 20 /\
     pz (position c2) = 2 * (roadLength (sim sceneReady) / 20) /\
     pz (position c3) = 3 * (roadLength (sim sceneReady) / 20)).
Proof.
  apply (generateRoad_straight_entry (fun _ => 0.5) sceneReady). reflexivity.
Defined.

(** X2. With [Math.random] in [[0, 1)], every curvature of a generated
    road lies in [[-0.015, 0.015)], and the heading of segment [j] is at
    most [0.015 * (j - 3)] away from 0, hence never beyond 0.24. *)
Theorem generateRoad_gentle_curves :
  forall (random : RandomSource) (app : App),
    (forall k, 0 <= random k < 1) ->
    scene (sim app) = true ->
    exists app',
      generateRoad random app = Some app' /\
      forall j c,
        nth_error (roadCurves (sim app')) j = Some c ->
        -0.015 <= curvature c < 0.015 /\
        Rabs (angle c) <= 0.015 * INR (j - 3) /\
        Rabs (angle c) <= 0.24.
Proof.
  intros random app Hrandom Hscene.
  destruct (generateRoad_spec random app Hscene) as (app' & Hgen & Hcurves & _).
  exists app'. split; [exact Hgen|]. intros j c Hj.
  assert (Hlt : (j < 20)%nat).
  { pose proof (generatedCurves_length random (roadLength (sim app))) as Hlen.
    rewrite <- Hcurves in Hlen. unfold segments in Hlen.
    rewrite <- Hlen. apply nth_error_Some. congruence. }
  rewrite Hcurves, generatedCurves_eq in Hj.
  destruct (roadCurvesLoop_bounds random _ Hrandom _ _ _ _ _ _ _ _ Hj)
    as (Hc & Ha).
  replace (drawn 0 j) with (j - 3)%nat in Ha by (unfold drawn; lia).
  assert (Hn : INR (j - 3) <= 16).
  { replace 16 with (INR 16) by (simpl; lra). apply le_INR. lia. }
  split; [exact Hc|].
  split; apply Rabs_le; lra.
Qed.

(** The bounds on the road generated from draws that are all [0.5]. *)
Lemma generateRoad_gentle_curves_witness :
  exists app',
    generateRoad (fun _ => 0.5) sceneReady = Some app' /\
    forall j c,
      nth_error (roadCurves (sim app')) j = Some c ->
      -0.015 <= curvature c < 0.015 /\
      Rabs (angle c) <= 0.015 * INR (j - 3) /\
      Rabs (angle c) <= 0.24.
Proof.
  apply (generateRoad_gentle_curves (fun _ => 0.5) sceneReady).
  - intros k. lra.
  - reflexivity.
Defined.

Lemma generateRoad_chained random app :
  scene (sim app) = true ->
  exists app',
    generateRoad random app = Some app' /\
    length (roadCurves (sim app')) = 20%nat /\
    chained (roadLength (sim app) / 20) (roadCurves (sim app')).
Proof.
  intros Hscene.
  destruct (generateRoad_spec random app Hscene) as (app' & Hgen & Hcurves & _).
  exists app'. split; [exact Hgen|]. rewrite Hcurves. split.
  - apply generatedCurves_length.
  - rewrite generatedCurves_eq. apply roadCurvesLoop_chained.
Qed.

(** X3. On a generated road (of non-negative length) the starts of
    consecutive segments are exactly one segment length,
    [roadLength / 20], apart in the ground plane. *)
Theorem generateRoad_segments_evenly_spaced :
  forall (random : RandomSource) (app : App) (i : nat),
    scene (sim app) = true ->
    0 <= roadLength (sim app) ->
    (S i < 20)%nat ->
    exists app' ci cj,
      generateRoad random app = Some app' /\
      nth_error (roadCurves (sim app')) i = Some ci /\
      nth_error (roadCurves (sim app')) (S i) = Some cj /\
      sqrt ((px (position cj) - px (position ci)) ^ 2
            + (pz (position cj) - pz (position ci)) ^ 2)
      = roadLength (sim app) / 20.
Proof.
  intros random app i Hscene Hlen Hi.
  destruct (generateRoad_chained random app Hscene) as (app' & Hgen & Hn & Hch).
  destruct (nth_error (roadCurves (sim app')) i) as [ci|] eqn:Ei.
  2:{ apply nth_error_None in Ei. lia. }
  destruct (nth_error (roadCurves (sim app')) (S i)) as [cj|] eqn:Ej.
  2:{ apply nth_error_None in Ej. lia. }
  exists app', ci, cj. repeat split; try assumption.
  destruct (chained_nth _ _ _ _ _ Hch Ei Ej) as (_ & Hx & Hz).
  rewrite Hx, Hz.
  set (L := roadLength (sim app) / 20).
  replace ((px (position ci) + sin (angle cj) * L - px (position ci)) ^ 2
           + (pz (position ci) + cos (angle cj) * L - pz (position ci)) ^ 2)
    with (L * L * ((sin (angle cj))² + (cos (angle cj))²))
    by (unfold Rsqr; ring).
  rewrite sin2_cos2, Rmult_1_r.
  apply sqrt_square. unfold L. lra.
Qed.

(** The spacing between segments 0 and 1 of the road generated from draws
    that are all [0.5]. *)
Lemma generateRoad_segments_evenly_spaced_witness :
  exists app' ci cj,
    generateRoad (fun _ => 0.5) sceneReady = Some app' /\
    nth_error (roadCurves (sim app')) 0 = Some ci /\
    nth_error (roadCurves (sim app')) 1 = Some cj /\
    sqrt ((px (position cj) - px (position ci)) ^ 2
          + (pz (position cj) - pz (position ci)) ^ 2)
    = roadLength (sim sceneReady) / 20.
Proof.
  apply (generateRoad_segments_evenly_spaced (fun _ => 0.5) sceneReady 0).
  - reflexivity.
  - cbn. lra.
  - lia.
Defined.

(** ** Number of obstacles *)

Section ObstacleCount.

Variable random : RandomSource.
Variable W : R.

Lemma obstaclesLoop_length : forall curves i k,
  (length (fst (obstaclesLoop random W curves i k))
   <= (i + length curves - 4) - (i - 4))%nat.
Proof.
  induction curves as [|curve rest IH]; intros i k; [cbn; lia|].
  destruct (Rltb (random k) 0.2 && (3 <? i)%nat) eqn:Hplace.
  - rewrite (obstaclesLoop_place random W curve rest i k Hplace).
    apply andb_true_iff in Hplace. destruct Hplace as [_ Hi].
    apply Nat.ltb_lt in Hi.
    specialize (IH (S i) (S (S k))). cbn [length] in *. lia.
  - rewrite (obstaclesLoop_skip random W curve rest i k Hplace).
    specialize (IH (S i) (S k)). cbn [length] in *. lia.
Qed.

Lemma obstaclesLoop_none : forall curves i k,
  (forall n, 0.2 <= random n) ->
  fst (obstaclesLoop random W curves i k) = [].
Proof.
  induction curves as [|curve rest IH]; intros i k Hr; [reflexivity|].
  rewrite obstaclesLoop_skip.
  - apply IH. exact Hr.
  - rewrite Rltb_false by apply Hr. reflexivity.
Qed.

End ObstacleCount.

(** X4. A generated road carries at most 16 obstacles: one per segment
    at most, and none on the first four of the 20 segments. *)
Theorem generateRoad_at_most_16_obstacles :
  forall (random : RandomSource) (app : App),
    scene (sim app) = true ->
    exists app',
      generateRoad random app = Some app' /\
      (length (obstacles (sim app')) <= 16)%nat.
Proof.
  intros random app Hscene.
  destruct (generateRoad_spec random app Hscene)
    as (app' & Hgen & _ & Hobs & _).
  exists app'. split; [exact Hgen|]. rewrite Hobs.
  unfold generatedObstacles.
  pose proof (generatedCurves_length random (roadLength (sim app))) as Hlen.
  unfold segments in Hlen. revert Hlen.
  generalize (generatedCurves random (roadLength (sim app))) as curves.
  generalize (snd (roadCurvesLoop random (roadLength (sim app) / INR segments)
                     segments 0 0 0 0 0)) as k.
  intros k curves Hlen.
  pose proof (obstaclesLoop_length random (roadWidth (sim app)) curves 0 k).
  lia.
Qed.

(** The bound on the road generated from draws that are all [0.5]. *)
Lemma generateRoad_at_most_16_obstacles_witness :
  exists app',
    generateRoad (fun _ => 0.5) sceneReady = Some app' /\
    (length (obstacles (sim app')) <= 16)%nat.
Proof.
  apply (generateRoad_at_most_16_obstacles (fun _ => 0.5) sceneReady).
  reflexivity.
Defined.

(** X5. When no random draw falls below 0.2, the generated road has no
    obstacle at all. *)
Theorem generateRoad_no_obstacles_without_low_draws :
  forall (random : RandomSource) (app : App),
    scene (sim app) = true ->
    (forall n, 0.2 <= random n) ->
    exists app',
      generateRoad random app = Some app' /\
      obstacles (sim app') = [].
Proof.
  intros random app Hscene Hr.
  destruct (generateRoad_spec random app Hscene)
    as (app' & Hgen & _ & Hobs & _).
  exists app'. split; [exact Hgen|]. rewrite Hobs.
  unfold generatedObstacles.
  generalize (generatedCurves random (roadLength (sim app))) as curves.
  generalize (snd (roadCurvesLoop random (roadLength (sim app) / INR segments)
                     segments 0 0 0 0 0)) as k.
  intros k curves. apply obstaclesLoop_none. exact Hr.
Qed.

(** Draws that are all [0.5] leave the road free of obstacles. *)
Lemma generateRoad_no_obstacles_without_low_draws_witness :
  exists app',
    generateRoad (fun _ => 0.5) sceneReady = Some app' /\
    obstacles (sim app') = [].
Proof.
  apply (generateRoad_no_obstacles_without_low_draws (fun _ => 0.5) sceneReady).
  - reflexivity.
  - intros n. lra.
Defined.

(** ** Adaptive cruise control: shape of the policy *)

(** X6. The target speed never decreases when the forward clearance
    grows, and a clear view gives the largest target. *)
Theorem cruise_target_is_monotone :
  (forall s1 s2 d1 d2,
      front (sensorReadings s1) = Fin d1 ->
      front (sensorReadings s2) = Fin d2 ->
      d1 <= d2 ->
      targetSpeed (updateAdaptiveCruiseControl s1)
      <= targetSpeed (updateAdaptiveCruiseControl s2)) /\
  (forall s1 s2,
      front (sensorReadings s2) = Infinity ->
      targetSpeed (updateAdaptiveCruiseControl s1)
      <= targetSpeed (updateAdaptiveCruiseControl s2)).
Proof.
  split.
  - intros s1 s2 d1 d2 H1 H2 Hle.
    destruct (Rlt_dec d2 10) as [Hd2|Hd2].
    + rewrite (updateAdaptiveCruiseControl_below s1 d1 H1) by lra.
      rewrite (updateAdaptiveCruiseControl_below s2 d2 H2 Hd2).
      apply Rmult_le_compat_l; [lra|].
      apply Rle_max_compat_l. lra.
    + rewrite (updateAdaptiveCruiseControl_clear s2 d2 H2) by lra.
      pose proof (updateAdaptiveCruiseControl_range s1). lra.
  - intros s1 s2 H2.
    rewrite (updateAdaptiveCruiseControl_no_hit s2 H2).
    pose proof (updateAdaptiveCruiseControl_range s1). lra.
Qed.

(** ** The state between the kinematic update and lane keeping *)

Lemma updateAdaptiveCruiseControl_fields s :
  carPosition (updateAdaptiveCruiseControl s) = carPosition s /\
  distance (updateAdaptiveCruiseControl s) = distance s /\
  obstacles (updateAdaptiveCruiseControl s) = obstacles s /\
  sensorReadings (updateAdaptiveCruiseControl s) = sensorReadings s /\
  sensors (updateAdaptiveCruiseControl s) = sensors s /\
  roadLength (updateAdaptiveCruiseControl s) = roadLength s.
Proof.
  unfold updateAdaptiveCruiseControl.
  destruct (js_lt _ _); repeat split; reflexivity.
Qed.

Lemma movedState_fields delta app c :
  car (sim app) = Some c ->
  car (movedState delta app)
  = Some (mkObject3D (carPosition (movedState delta app)) (rotation_y c)) /\
  carPosition (movedState delta app)
  = mkVector3
      (x (carPosition (sim app))
       + sin (carRotation (sim app)) * frameStep delta app)
      (y (carPosition (sim app)))
      (z (carPosition (sim app))
       + cos (carRotation (sim app)) * frameStep delta app) /\
  carRotation (movedState delta app) = carRotation (sim app) /\
  carSpeed (movedState delta app) = frameSpeed app /\
  targetSpeed (movedState delta app) = frameTarget app /\
  distance (movedState delta app)
  = distance (sim app) + frameStep delta app /\
  roadCurves (movedState delta app) = roadCurves (sim app) /\
  obstacles (movedState delta app) = obstacles (sim app) /\
  sensorReadings (movedState delta app) = sensorReadings (sim app) /\
  sensors (movedState delta app) = sensors (sim app).
Proof.
  intros Hcar.
  unfold movedState, frameStep, frameSpeed, frameTarget.
  destruct (adaptiveCruiseActive app).
  - destruct (updateAdaptiveCruiseControl_fields (sim app))
      as (Hp & Hd & Ho & Hr & Hs & _).
    cbn [car carPosition carRotation carSpeed targetSpeed distance roadCurves
         obstacles sensorReadings sensors moveCar].
    rewrite updateAdaptiveCruiseControl_car, Hcar,
      updateAdaptiveCruiseControl_carRotation,
      updateAdaptiveCruiseControl_carSpeed,
      updateAdaptiveCruiseControl_roadCurves, Hp, Hd, Ho, Hr, Hs,
      forward_direction.
    cbn [x z]. repeat split; reflexivity.
  - cbn [car carPosition carRotation carSpeed targetSpeed distance roadCurves
         obstacles sensorReadings sensors moveCar].
    rewrite Hcar, forward_direction. cbn [x z]. repeat split; reflexivity.
Qed.

Section FrameStructure.

Variable intersectObjects : Ray -> list Object3D -> list Intersection.

(** An executed frame is the kinematic update, then lane keeping if it is
    enabled, then the sensor update; the React state follows from the
    result. *)
Lemma updateSimulation_unfold delta app c :
  car (sim app) = Some c ->
  initialized (sim app) = true ->
  sim (updateSimulation intersectObjects delta app)
  = updateSensors intersectObjects
      (if laneKeepingActive app
       then updateLaneKeeping (movedState delta app)
       else movedState delta app) /\
  laneKeepingActive (updateSimulation intersectObjects delta app)
  = laneKeepingActive app /\
  adaptiveCruiseActive (updateSimulation intersectObjects delta app)
  = adaptiveCruiseActive app /\
  speed (updateSimulation intersectObjects delta app)
  = Math_floor (frameSpeed app * 100) /\
  shownDistance (updateSimulation intersectObjects delta app)
  = Math_floor (distance (sim app) + frameStep delta app).
Proof.
  intros Hcar Hinit. unfold updateSimulation. rewrite Hcar, Hinit.
  cbn [negb sim laneKeepingActive adaptiveCruiseActive speed shownDistance].
  unfold movedState, frameStep, frameSpeed, frameTarget.
  destruct (laneKeepingActive app), (adaptiveCruiseActive app);
    rewrite ?(proj1 (proj2 (updateAdaptiveCruiseControl_fields (sim app))));
    rewrite ?updateAdaptiveCruiseControl_carSpeed;
    repeat split; reflexivity.
Qed.

Lemma animate_flags delta app :
  laneKeepingActive (animate intersectObjects delta app)
  = laneKeepingActive app /\
  adaptiveCruiseActive (animate intersectObjects delta app)
  = adaptiveCruiseActive app.
Proof.
  unfold animate. destruct (isSimulationRunning app); [|split; reflexivity].
  destruct (car (sim app)) as [c|] eqn:Hcar.
  - destruct (initialized (sim app)) eqn:Hinit.
    + destruct (updateSimulation_unfold delta app c Hcar Hinit)
        as (_ & Hl & Ha & _). split; assumption.
    + rewrite updateSimulation_unchanged by (right; exact Hinit).
      split; reflexivity.
  - rewrite updateSimulation_unchanged by (left; exact Hcar).
    split; reflexivity.
Qed.

End FrameStructure.

Lemma updateLaneKeeping_fields s :
  obstacles (updateLaneKeeping s) = obstacles s /\
  sensorReadings (updateLaneKeeping s) = sensorReadings s /\
  sensors (updateLaneKeeping s) = sensors s.
Proof.
  unfold updateLaneKeeping.
  destruct (car s); [destruct (roadCurves s)|]; repeat split; reflexivity.
Qed.

(** ** Driving on a road without obstacles *)

Section ClearRoad.

Variable intersectObjects : Ray -> list Object3D -> list Intersection.
Hypothesis no_objects_no_hits : forall ray, intersectObjects ray [] = [].

Lemma updateSensors_obstacles s :
  obstacles (updateSensors intersectObjects s) = obstacles s.
Proof.
  unfold updateSensors.
  destruct (car s); [destruct (sensors s)|]; reflexivity.
Qed.

Lemma updateSensors_front_clear s :
  obstacles s = [] ->
  front (sensorReadings s) = Infinity ->
  front (sensorReadings (updateSensors intersectObjects s)) = Infinity.
Proof.
  intros Ho Hf. unfold updateSensors.
  destruct (car s); [destruct (sensors s)|]; cbn [negb]; try exact Hf.
  cbn [sensorReadings set_sensorReadings front].
  rewrite Ho, no_objects_no_hits. reflexivity.
Qed.

Lemma frameTarget_clear app :
  clearRoad (sim app) -> frameTarget app = 0.3 /\ frameSpeed app = 0.3.
Proof.
  intros (_ & Hs & Ht & Hf).
  assert (Htarget : frameTarget app = 0.3).
  { unfold frameTarget. destruct (adaptiveCruiseActive app); [|exact Ht].
    apply updateAdaptiveCruiseControl_no_hit. exact Hf. }
  split; [exact Htarget|]. unfold frameSpeed. rewrite Htarget, Hs. lra.
Qed.

Lemma updateSimulation_clearRoad delta app :
  clearRoad (sim app) ->
  clearRoad (sim (updateSimulation intersectObjects delta app)).
Proof.
  intros Hclear.
  destruct (car (sim app)) as [c|] eqn:Hcar.
  2:{ rewrite updateSimulation_unchanged by (left; exact Hcar). exact Hclear. }
  destruct (initialized (sim app)) eqn:Hinit.
  2:{ rewrite updateSimulation_unchanged by (right; exact Hinit).
      exact Hclear. }
  destruct (updateSimulation_unfold intersectObjects delta app c Hcar Hinit)
    as (Hsim & _).
  destruct (movedState_fields delta app c Hcar)
    as (_ & _ & _ & Hs & Ht & _ & _ & Ho & Hr & _).
  destruct (frameTarget_clear app Hclear) as (Hft & Hfs).
  destruct Hclear as (Hobs & _ & _ & Hfront).
  rewrite Hsim. unfold clearRoad.
  rewrite updateSensors_obstacles, updateSensors_carSpeed,
    updateSensors_targetSpeed.
  destruct (laneKeepingActive app).
  - destruct (updateLaneKeeping_fields (movedState delta app))
      as (Ho' & Hr' & _).
    rewrite Ho', updateLaneKeeping_carSpeed, updateLaneKeeping_targetSpeed,
      Ho, Hs, Ht.
    repeat split; try assumption.
    apply updateSensors_front_clear; [rewrite Ho', Ho; exact Hobs|].
    rewrite Hr', Hr. exact Hfront.
  - rewrite Ho, Hs, Ht. repeat split; try assumption.
    apply updateSensors_front_clear; [rewrite Ho; exact Hobs|].
    rewrite Hr. exact Hfront.
Qed.

Lemma frames_clearRoad deltas app n :
  clearRoad (sim app) ->
  clearRoad (sim (frames intersectObjects deltas n app)).
Proof.
  intros Hclear. induction n as [|n IH]; [exact Hclear|].
  cbn [frames]. unfold animate.
  destruct (isSimulationRunning (frames intersectObjects deltas n app));
    [apply updateSimulation_clearRoad|]; exact IH.
Qed.

Lemma frames_running_prefix deltas app n :
  isSimulationRunning (frames intersectObjects deltas (S n) app) = true ->
  isSimulationRunning (frames intersectObjects deltas n app) = true.
Proof.
  cbn [frames]. unfold animate.
  destruct (isSimulationRunning (frames intersectObjects deltas n app)) eqn:E;
    [reflexivity|]. rewrite E. discriminate.
Qed.

End ClearRoad.

(** X7. On a road without obstacles, with nothing sensed ahead and speed
    and target speed at 0.3, the car keeps exactly that speed: as long as
    the run is still going after [n] frames, the speed is 0.3 and the
    distance has grown by 6 per unit of elapsed time.  The raycaster is
    only required to find nothing among no objects. *)
Theorem clear_road_cruises_at_base_speed :
  forall (intersectObjects : Ray -> list Object3D -> list Intersection)
         (deltas : nat -> R) (app : App) (n : nat),
    (forall ray, intersectObjects ray [] = []) ->
    car (sim app) <> None ->
    initialized (sim app) = true ->
    obstacles (sim app) = [] ->
    carSpeed (sim app) = 0.3 ->
    targetSpeed (sim app) = 0.3 ->
    front (sensorReadings (sim app)) = Infinity ->
    isSimulationRunning (frames intersectObjects deltas n app) = true ->
    carSpeed (sim (frames intersectObjects deltas n app)) = 0.3 /\
    distance (sim (frames intersectObjects deltas n app))
    = distance (sim app) + 6 * elapsed deltas n.
Proof.
  intros io deltas app n Hnone Hcar Hinit Hobs Hs Ht Hf.
  assert (Hclear : clearRoad (sim app)) by (repeat split; assumption).
  induction n as [|n IH]; intros Hrun.
  - cbn [frames elapsed]. split; [exact Hs | lra].
  - pose proof (frames_running_prefix io deltas app n Hrun) as Hprev.
    destruct (IH Hprev) as (_ & Hdist).
    pose proof (frames_clearRoad io Hnone deltas app (S n) Hclear)
      as (_ & Hspeed & _).
    split; [exact Hspeed|].
    destruct (frames_initialised io deltas app Hcar Hinit n) as (Hc & Hi & _).
    pose proof (frames_clearRoad io Hnone deltas app n Hclear) as Hcn.
    destruct (frameTarget_clear _ Hcn) as (_ & Hfs).
    cbn [frames elapsed]. unfold animate. rewrite Hprev.
    destruct (car (sim (frames io deltas n app))) as [c|] eqn:Ec;
      [|contradiction].
    destruct (updateSimulation_kinematics io (deltas n) _ c Ec Hi)
      as (_ & _ & Hd & _).
    cbv zeta in Hd. rewrite Hd, Hdist. unfold frameStep. rewrite Hfs. lra.
Qed.

Lemma driving_after_unit_frame :
  isSimulationRunning (frames pointHits (fun _ => 1) 1 driving) = true.
Proof.
  assert (Hcar : car (sim driving) = Some (mkObject3D (mkVector3 1 0.5 0) 0))
    by reflexivity.
  assert (Hinit : initialized (sim driving) = true) by reflexivity.
  assert (Hclear : clearRoad (sim driving)) by (repeat split; reflexivity).
  destruct (frameTarget_clear driving Hclear) as (_ & Hfs).
  destruct (updateSimulation_kinematics pointHits 1 driving _ Hcar Hinit)
    as (_ & _ & Hdist & _).
  assert (Hne : car (sim driving) <> None) by (rewrite Hcar; discriminate).
  destruct (animate_running pointHits 1 driving Hne Hinit)
    as (_ & _ & _ & _ & Hon).
  cbn [frames]. cbv zeta in Hon, Hdist. rewrite (Hon eq_refl).
  unfold animate. change (isSimulationRunning driving) with true. cbv iota.
  rewrite Hdist. unfold frameStep. rewrite Hfs.
  change (distance (sim driving)) with 0.
  change (roadLength (sim driving)) with 500.
  rewrite Rltb_false by lra. reflexivity.
Qed.

(** One frame of one time unit from [driving]: speed 0.3, distance 6. *)
Lemma clear_road_cruises_at_base_speed_witness :
  carSpeed (sim (frames pointHits (fun _ => 1) 1 driving)) = 0.3 /\
  distance (sim (frames pointHits (fun _ => 1) 1 driving))
  = distance (sim driving) + 6 * elapsed (fun _ => 1) 1.
Proof.
  apply (clear_road_cruises_at_base_speed pointHits (fun _ => 1) driving 1);
    try reflexivity.
  - discriminate.
  - exact driving_after_unit_frame.
Defined.

(** ** Lane keeping on a straight road *)

Lemma updateLaneKeeping_on_centreline s :
  straightRoad (roadCurves s) ->
  (forall c, car s = Some c -> x (obj_position c) = 0) ->
  carRotation (updateLaneKeeping s) = carRotation s.
Proof.
  intros Hroad Hx.
  destruct (car s) as [c|] eqn:Hcar.
  2:{ unfold updateLaneKeeping. rewrite Hcar. reflexivity. }
  destruct (roadCurves s) as [|first rest] eqn:Hcurves.
  { unfold updateLaneKeeping. rewrite Hcar, Hcurves. reflexivity. }
  assert (Hne : roadCurves s <> []) by (rewrite Hcurves; discriminate).
  destruct (updateLaneKeeping_steering_law s c Hcar Hne)
    as (n & segment & (Hnth & _) & Hrot & _).
  rewrite Hcurves in Hnth. apply nth_error_In in Hnth.
  destruct (Hroad segment Hnth) as (Hpx & Ha & Hk).
  rewrite Hrot. unfold steering. cbv zeta.
  rewrite (Hx c eq_refl), Hpx, Ha, Hk, Ropp_0, sin_0, cos_0. lra.
Qed.

Section StraightRoad.

Variable intersectObjects : Ray -> list Object3D -> list Intersection.

Lemma updateSimulation_roadCurves delta app :
  roadCurves (sim (updateSimulation intersectObjects delta app))
  = roadCurves (sim app).
Proof.
  destruct (car (sim app)) as [c|] eqn:Hcar.
  2:{ rewrite updateSimulation_unchanged by (left; exact Hcar). reflexivity. }
  destruct (initialized (sim app)) eqn:Hinit.
  2:{ rewrite updateSimulation_unchanged by (right; exact Hinit).
      reflexivity. }
  destruct (updateSimulation_unfold intersectObjects delta app c Hcar Hinit)
    as (Hsim & _).
  destruct (movedState_fields delta app c Hcar)
    as (_ & _ & _ & _ & _ & _ & Hc & _).
  rewrite Hsim, updateSensors_roadCurves.
  destruct (laneKeepingActive app);
    rewrite ?updateLaneKeeping_roadCurves; exact Hc.
Qed.

Lemma updateSimulation_on_centreline delta app :
  straightRoad (roadCurves (sim app)) ->
  carRotation (sim app) = 0 ->
  x (carPosition (sim app)) = 0 ->
  carRotation (sim (updateSimulation intersectObjects delta app)) = 0 /\
  x (carPosition (sim (updateSimulation intersectObjects delta app))) = 0.
Proof.
  intros Hroad Hrot Hx.
  destruct (car (sim app)) as [c|] eqn:Hcar.
  2:{ rewrite updateSimulation_unchanged by (left; exact Hcar). auto. }
  destruct (initialized (sim app)) eqn:Hinit.
  2:{ rewrite updateSimulation_unchanged by (right; exact Hinit). auto. }
  destruct (updateSimulation_unfold intersectObjects delta app c Hcar Hinit)
    as (Hsim & _).
  destruct (movedState_fields delta app c Hcar)
    as (Hc & Hp & Hr & _ & _ & _ & Hcurves & _).
  assert (Hx' : x (carPosition (movedState delta app)) = 0).
  { rewrite Hp. cbn [x]. rewrite Hrot, Hx, sin_0. lra. }
  rewrite Hsim, updateSensors_carRotation, updateSensors_carPosition.
  destruct (laneKeepingActive app).
  - rewrite updateLaneKeeping_carPosition. split; [|exact Hx'].
    rewrite updateLaneKeeping_on_centreline.
    + rewrite Hr. exact Hrot.
    + rewrite Hcurves. exact Hroad.
    + intros c' Hc'. rewrite Hc in Hc'. injection Hc' as <-. exact Hx'.
  - split; [rewrite Hr; exact Hrot | exact Hx'].
Qed.

End StraightRoad.

(** X8. On a straight road along the z axis, a car that is on the
    centreline with heading 0 stays there: after any number of frames the
    heading is still 0 and the car is still at [x = 0], whether lane
    keeping is enabled or not. *)
Theorem straight_road_keeps_the_car_centred :
  forall (intersectObjects : Ray -> list Object3D -> list Intersection)
         (deltas : nat -> R) (app : App) (n : nat),
    straightRoad (roadCurves (sim app)) ->
    carRotation (sim app) = 0 ->
    x (carPosition (sim app)) = 0 ->
    carRotation (sim (frames intersectObjects deltas n app)) = 0 /\
    x (carPosition (sim (frames intersectObjects deltas n app))) = 0.
Proof.
  intros io deltas app n Hroad Hrot Hx.
  assert (H : straightRoad (roadCurves (sim (frames io deltas n app))) /\
              carRotation (sim (frames io deltas n app)) = 0 /\
              x (carPosition (sim (frames io deltas n app))) = 0).
  { induction n as [|n (IHroad & IHrot & IHx)]; [auto|].
    cbn [frames]. unfold animate.
    destruct (isSimulationRunning (frames io deltas n app)); [|auto].
    split; [rewrite updateSimulation_roadCurves; exact IHroad|].
    apply updateSimulation_on_centreline; assumption. }
  exact (proj2 H).
Qed.

(** Three frames on the two-segment straight road of [centred]. *)
Lemma straight_road_keeps_the_car_centred_witness :
  carRotation (sim (frames pointHits (fun _ => 0.05) 3 centred)) = 0 /\
  x (carPosition (sim (frames pointHits (fun _ => 0.05) 3 centred))) = 0.
Proof.
  apply (straight_road_keeps_the_car_centred pointHits (fun _ => 0.05)
           centred 3).
  - intros segment [<-|[<-|[]]]; repeat split; reflexivity.
  - reflexivity.
  - reflexivity.
Defined.

(** ** What the header shows *)

Lemma Math_floor_between (lo hi : Z) (r : R) :
  IZR lo <= r -> r < IZR hi + 1 -> (lo <= Math_floor r <= hi)%Z.
Proof.
  intros Hlo Hhi. unfold Math_floor.
  destruct (base_Int_part r) as (Hle & Hgt).
  split.
  - apply Z.lt_succ_r, lt_IZR. rewrite succ_IZR. lra.
  - apply Z.lt_succ_r, lt_IZR. rewrite succ_IZR. lra.
Qed.

Lemma Math_floor_zero : Math_floor 0 = 0%Z.
Proof.
  assert (H : (0 <= Math_floor 0 <= 0)%Z) by (apply Math_floor_between; lra).
  lia.
Qed.

Lemma generateRoad_shown random app app' :
  generateRoad random app = Some app' ->
  speed app' = 0%Z /\ shownDistance app' = 0%Z /\ distance (sim app') = 0.
Proof.
  intros Hgen. destruct (scene (sim app)) eqn:Hscene.
  - destruct (generateRoad_spec random app Hscene)
      as (app'' & Hgen' & _ & _ & Hd & _ & _ & Hsd & Hsp & _).
    rewrite Hgen in Hgen'. injection Hgen' as <-. auto.
  - rewrite (generateRoad_no_scene random app Hscene) in Hgen. discriminate.
Qed.

Section Shown.

Variable intersectObjects : Ray -> list Object3D -> list Intersection.

Lemma updateSimulation_shown delta app :
  shownValues app ->
  shownValues (updateSimulation intersectObjects delta app).
Proof.
  intros Hshown. pose proof Hshown as (Hr & Hd & Hs).
  pose proof (updateSimulation_range intersectObjects delta app Hr) as Hr'.
  destruct (car (sim app)) as [c|] eqn:Hcar.
  2:{ rewrite updateSimulation_unchanged by (left; exact Hcar).
      exact Hshown. }
  destruct (initialized (sim app)) eqn:Hinit.
  2:{ rewrite updateSimulation_unchanged by (right; exact Hinit).
      exact Hshown. }
  destruct (updateSimulation_unfold intersectObjects delta app c Hcar Hinit)
    as (_ & _ & _ & Hspeed & Hfloor).
  destruct (updateSimulation_kinematics intersectObjects delta app c Hcar Hinit)
    as (Hsp & _ & Hdist & _).
  cbv zeta in Hsp, Hdist.
  split; [exact Hr'|]. split.
  - rewrite Hfloor, Hdist. reflexivity.
  - right. rewrite Hspeed, <- Hsp.
    destruct Hr' as ((Hlo & Hhi) & _).
    apply Math_floor_between.
    all: lra.
Qed.

Lemma step_shown e app app' :
  step intersectObjects e app = Some app' ->
  shownValues app -> shownValues app'.
Proof.
  intros Hstep Hshown.
  pose proof (step_range intersectObjects e app app' Hstep (proj1 Hshown))
    as Hr'.
  pose proof Math_floor_zero as Hzero.
  pose proof Hshown as (_ & Hd & Hs).
  destruct e as [random|random| |delta| |].
  - destruct (mountEffect_inv _ _ _ Hstep) as (a & Hgen & ->).
    destruct (generateRoad_shown _ _ _ Hgen) as (Hsp & Hsd & Hdist).
    split; [exact Hr'|].
    cbn [set_sim set_initialized sim distance shownDistance speed].
    rewrite Hsd, Hdist, Hzero, Hsp. auto.
  - destruct (handleStartSimulation_inv _ _ _ Hstep)
      as [(_ & ->) | (_ & a & Hgen & ->)]; [exact Hshown|].
    destruct (generateRoad_shown _ _ _ Hgen) as (Hsp & Hsd & Hdist).
    split; [exact Hr'|].
    cbn [set_isSimulationRunning sim shownDistance speed].
    rewrite Hsd, Hdist, Hzero, Hsp. auto.
  - injection Hstep as <-. unfold handleStopSimulation.
    destruct (isSimulationRunning app); exact Hshown.
  - injection Hstep as <-. unfold animate.
    destruct (isSimulationRunning app);
      [apply updateSimulation_shown|]; exact Hshown.
  - injection Hstep as <-. exact Hshown.
  - injection Hstep as <-. exact Hshown.
Qed.

Lemma run_shown events : forall app app',
  run intersectObjects events app = Some app' ->
  shownValues app -> shownValues app'.
Proof.
  induction events as [|e events IH]; intros app app' Hrun Hs; cbn [run] in Hrun.
  - injection Hrun as <-. exact Hs.
  - destruct (step intersectObjects e app) as [a|] eqn:Hstep; [|discriminate].
    exact (IH a app' Hrun (step_shown e app a Hstep Hs)).
Qed.

End Shown.

(** X9. In every state reached from the initial component, the distance
    shown in the header is the floor of the accumulated distance, and the
    speed shown is either 0 (before the first executed frame and after
    every road generation) or between 3 and 30. *)
Theorem header_shows_floor_of_distance_and_bounded_speed :
  forall (intersectObjects : Ray -> list Object3D -> list Intersection)
         (events : list Event) (app : App),
    run intersectObjects events initialApp = Some app ->
    shownDistance app = Math_floor (distance (sim app)) /\
    (speed app = 0%Z \/ (3 <= speed app <= 30)%Z).
Proof.
  intros io events app Hrun.
  apply (run_shown io events initialApp app Hrun).
  split; [split; cbn; lra|]. split; [|left; reflexivity].
  symmetry. exact Math_floor_zero.
Qed.

(** The header after mounting, starting and one frame. *)
Lemma header_shows_floor_of_distance_and_bounded_speed_witness :
  exists app,
    run pointHits [Mount (fun _ => 0.5); Start (fun _ => 0.5); Frame 0.05]
        initialApp = Some app /\
    shownDistance app = Math_floor (distance (sim app)) /\
    (speed app = 0%Z \/ (3 <= speed app <= 30)%Z).
Proof.
  destruct (run_mounted_total pointHits (fun _ => 0.5)
              [Start (fun _ => 0.5); Frame 0.05] initialApp) as (app & Hrun).
  exists app. split; [exact Hrun|].
  exact (header_shows_floor_of_distance_and_bounded_speed pointHits _ app Hrun).
Defined.

(** ** Progress of a run *)

Lemma frameSpeed_range app :
  speedsInRange (sim app) -> 0.03 <= frameSpeed app <= 0.3.
Proof.
  intros (Hs & Ht).
  assert (Hft : 0.03 <= frameTarget app <= 0.3).
  { unfold frameTarget. destruct (adaptiveCruiseActive app);
      [apply updateAdaptiveCruiseControl_range | exact Ht]. }
  unfold frameSpeed. lra.
Qed.

Section Progress.

Variable intersectObjects : Ray -> list Object3D -> list Intersection.
Variable deltas : nat -> R.
Variable app : App.
Hypothesis Hrange : speedsInRange (sim app).

Lemma frames_range n :
  speedsInRange (sim (frames intersectObjects deltas n app)).
Proof.
  induction n as [|n IH]; [exact Hrange|].
  cbn [frames]. apply animate_range. exact IH.
Qed.

(** A frame of non-negative duration moves the distance forward, by at
    most 6 per unit of time, and by at least 0.6 per unit of time when the
    frame is executed. *)
Lemma frames_distance_step n :
  0 <= deltas n ->
  distance (sim (frames intersectObjects deltas n app))
  <= distance (sim (frames intersectObjects deltas (S n) app))
  <= distance (sim (frames intersectObjects deltas n app)) + 6 * deltas n /\
  (isSimulationRunning (frames intersectObjects deltas n app) = true ->
   car (sim (frames intersectObjects deltas n app)) <> None ->
   initialized (sim (frames intersectObjects deltas n app)) = true ->
   distance (sim (frames intersectObjects deltas n app)) + 0.6 * deltas n
   <= distance (sim (frames intersectObjects deltas (S n) app))).
Proof.
  intros Hdelta. pose proof (frames_range n) as Hr.
  pose proof (frameSpeed_range _ Hr) as Hfs.
  cbn [frames]. set (now := frames intersectObjects deltas n app) in *.
  unfold animate.
  destruct (isSimulationRunning now); [|split; [lra | discriminate]].
  destruct (car (sim now)) as [c|] eqn:Hcar.
  2:{ rewrite updateSimulation_unchanged by (left; exact Hcar).
      split; [lra | intros _ H; contradiction]. }
  destruct (initialized (sim now)) eqn:Hinit.
  2:{ rewrite updateSimulation_unchanged by (right; exact Hinit).
      split; [lra | intros _ _ H; discriminate]. }
  destruct (updateSimulation_kinematics intersectObjects (deltas n) now c
              Hcar Hinit) as (_ & _ & Hd & _).
  cbv zeta in Hd. rewrite Hd. unfold frameStep.
  split; [|intros _ _ _]; nra.
Qed.

Lemma frames_running_from_start n :
  isSimulationRunning (frames intersectObjects deltas n app) = true ->
  isSimulationRunning app = true.
Proof.
  induction n as [|n IH]; intros Hn; [exact Hn|].
  apply IH. apply (frames_running_prefix intersectObjects deltas app n Hn).
Qed.

Lemma frames_distance_lower n :
  (forall k, 0 <= deltas k) ->
  car (sim app) <> None ->
  initialized (sim app) = true ->
  isSimulationRunning (frames intersectObjects deltas n app) = true ->
  distance (sim app) + 0.6 * elapsed deltas n
  <= distance (sim (frames intersectObjects deltas n app)).
Proof.
  intros Hdeltas Hcar Hinit. induction n as [|n IH]; intros Hn.
  - cbn [frames elapsed]. lra.
  - pose proof (frames_running_prefix intersectObjects deltas app n Hn) as Hp.
    specialize (IH Hp).
    destruct (frames_initialised intersectObjects deltas app Hcar Hinit n)
      as (Hc & Hi & _).
    destruct (frames_distance_step n (Hdeltas n)) as (_ & Hstep).
    specialize (Hstep Hp Hc Hi). cbn [elapsed]. lra.
Qed.

End Progress.

Lemma elapsed_lower deltas dmin n :
  (forall k, dmin <= deltas k) -> dmin * INR n <= elapsed deltas n.
Proof.
  intros H. induction n as [|n IH].
  - cbn. lra.
  - rewrite S_INR. cbn [elapsed]. specialize (H n). lra.
Qed.

(** X10. With frames of non-negative duration the accumulated distance
    never decreases, and a frame of duration [delta] adds at most
    [6 * delta] to it. *)
Theorem distance_never_decreases :
  forall (intersectObjects : Ray -> list Object3D -> list Intersection)
         (deltas : nat -> R) (app : App) (n : nat),
    speedsInRange (sim app) ->
    (forall k, 0 <= deltas k) ->
    distance (sim (frames intersectObjects deltas n app))
    <= distance (sim (frames intersectObjects deltas (S n) app))
    <= distance (sim (frames intersectObjects deltas n app)) + 6 * deltas n.
Proof.
  intros io deltas app n Hr Hd.
  exact (proj1 (frames_distance_step io deltas app Hr n (Hd n))).
Qed.

Lemma driving_speedsInRange : speedsInRange (sim driving).
Proof. split; cbn; lra. Qed.

(** The second frame of a run of [driving] with frames of 0.05 time
    units. *)
Lemma distance_never_decreases_witness :
  distance (sim (frames pointHits (fun _ => 0.05) 1 driving))
  <= distance (sim (frames pointHits (fun _ => 0.05) 2 driving))
  <= distance (sim (frames pointHits (fun _ => 0.05) 1 driving)) + 6 * 0.05.
Proof.
  apply (distance_never_decreases pointHits (fun _ => 0.05) driving 1).
  - exact driving_speedsInRange.
  - intros k. lra.
Defined.

(** X11. Every run ends: from an initialised state with speeds in range,
    frames that each last at least [dmin > 0] stop the simulation within
    any number [n] of frames with [0.6 * dmin * n] above the road length,
    because the speed never falls below 0.03. *)
Theorem run_ends_within_bounded_frames :
  forall (intersectObjects : Ray -> list Object3D -> list Intersection)
         (deltas : nat -> R) (app : App) (dmin : R) (n : nat),
    car (sim app) <> None ->
    initialized (sim app) = true ->
    speedsInRange (sim app) ->
    0 <= distance (sim app) ->
    0 <= roadLength (sim app) ->
    0 < dmin ->
    (forall k, dmin <= deltas k) ->
    roadLength (sim app) < 0.6 * dmin * INR n ->
    isSimulationRunning (frames intersectObjects deltas n app) = false.
Proof.
  intros io deltas app dmin n Hcar Hinit Hr Hd0 Hlen Hdmin Hdeltas Hn.
  destruct (isSimulationRunning (frames io deltas n app)) eqn:Hrun;
    [exfalso | reflexivity].
  assert (Hpos : forall k, 0 <= deltas k).
  { intros k. specialize (Hdeltas k). lra. }
  pose proof (frames_distance_lower io deltas app Hr n Hpos Hcar Hinit Hrun)
    as Hlow.
  pose proof (elapsed_lower deltas dmin n Hdeltas) as Hel.
  pose proof (frames_running_from_start io deltas app n Hrun) as Hstart.
  destruct n as [|n].
  - cbn in Hn. lra.
  - pose proof (proj1 (frames_running io deltas app Hcar Hinit (S n) Hstart)
                  Hrun (S n)) as Hle.
    assert (1 <= S n <= S n)%nat as Hk by lia. specialize (Hle Hk). lra.
Qed.

(** Frames of 100 time units end a run of [driving] within 9 frames. *)
Lemma run_ends_within_bounded_frames_witness :
  isSimulationRunning (frames pointHits (fun _ => 100) 9 driving) = false.
Proof.
  apply (run_ends_within_bounded_frames pointHits (fun _ => 100) driving 100 9).
  - discriminate.
  - reflexivity.
  - exact driving_speedsInRange.
  - cbn. lra.
  - cbn. lra.
  - lra.
  - intros k. lra.
  - cbn. lra.
Defined.

(** ** What every reachable state looks like *)

Transparent generateRoad.

Lemma generateRoad_car random app app' :
  generateRoad random app = Some app' ->
  car (sim app')
  = match car (sim app) with
    | Some _ => Some (mkObject3D (mkVector3 0 0.5 0) 0)
    | None => None
    end /\
  roadWidth (sim app') = roadWidth (sim app) /\
  laneWidth (sim app') = laneWidth (sim app).
Proof.
  unfold generateRoad. destruct (negb (scene (sim app))); [discriminate|].
  destruct (roadCurvesLoop random (roadLength (sim app) / INR segments)
              segments 0 0 0 0 0) as [curves k].
  destruct (obstaclesLoop random (roadWidth (sim app)) curves 0 k) as [obs k'].
  intros H. injection H as <-. repeat split; reflexivity.
Qed.

Opaque generateRoad.

Lemma generateRoad_result random app app' :
  generateRoad random app = Some app' ->
  scene (sim app) = true /\
  scene (sim app') = true /\
  length (roadCurves (sim app')) = 20%nat /\
  (length (obstacles (sim app')) <= 16)%nat /\
  carPosition (sim app') = mkVector3 0 0.5 0 /\
  carRotation (sim app') = 0 /\
  roadLength (sim app') = roadLength (sim app) /\
  initialized (sim app') = initialized (sim app) /\
  sensors (sim app') = sensors (sim app) /\
  isSimulationRunning app' = isSimulationRunning app.
Proof.
  intros Hgen. destruct (scene (sim app)) eqn:Hscene.
  2:{ rewrite (generateRoad_no_scene random app Hscene) in Hgen.
      discriminate. }
  destruct (generateRoad_spec random app Hscene)
    as (a & Hgen' & Hcurves & Hobs & _ & Hrot & Hpos & _ & _ & _ & _ & Hlen
        & Hrun & Hsc & Hinit & _ & _ & Hsens & _).
  rewrite Hgen in Hgen'. injection Hgen' as <-.
  split; [reflexivity|]. split; [exact Hsc|]. split.
  { rewrite Hcurves. apply generatedCurves_length. }
  split.
  { rewrite Hobs. unfold generatedObstacles.
    pose proof (generatedCurves_length random (roadLength (sim app))) as Hn.
    unfold segments in Hn. revert Hn.
    generalize (generatedCurves random (roadLength (sim app))) as curves.
    generalize (snd (roadCurvesLoop random
                       (roadLength (sim app) / INR segments)
                       segments 0 0 0 0 0)) as k.
    intros k curves Hn.
    pose proof (obstaclesLoop_length random (roadWidth (sim app)) curves 0 k).
    lia. }
  repeat split; assumption.
Qed.

Lemma updateLaneKeeping_meshInSync s :
  meshInSync s -> meshInSync (updateLaneKeeping s).
Proof.
  unfold meshInSync. intros Hsync.
  destruct (car s) as [c|] eqn:Hcar.
  2:{ unfold updateLaneKeeping. rewrite Hcar, Hcar. exact I. }
  destruct (roadCurves s) as [|first rest] eqn:Hcurves.
  { unfold updateLaneKeeping. rewrite Hcar, Hcurves, Hcar. exact Hsync. }
  assert (Hne : roadCurves s <> []) by (rewrite Hcurves; discriminate).
  destruct (updateLaneKeeping_steering_law s c Hcar Hne)
    as (_ & _ & _ & _ & Hc).
  rewrite Hc, updateLaneKeeping_carPosition. cbn [obj_position rotation_y].
  split; [exact (proj1 Hsync) | reflexivity].
Qed.

Section Reachable.

Variable intersectObjects : Ray -> list Object3D -> list Intersection.

Lemma updateSimulation_static delta app :
  scene (sim (updateSimulation intersectObjects delta app)) = scene (sim app) /\
  sensors (sim (updateSimulation intersectObjects delta app))
  = sensors (sim app) /\
  obstacles (sim (updateSimulation intersectObjects delta app))
  = obstacles (sim app) /\
  roadCurves (sim (updateSimulation intersectObjects delta app))
  = roadCurves (sim app) /\
  roadLength (sim (updateSimulation intersectObjects delta app))
  = roadLength (sim app) /\
  initialized (sim (updateSimulation intersectObjects delta app))
  = initialized (sim app) /\
  (car (sim (updateSimulation intersectObjects delta app)) = None <->
   car (sim app) = None).
Proof.
  destruct (car (sim app)) as [c|] eqn:Hcar.
  2:{ rewrite updateSimulation_unchanged by (left; exact Hcar).
      rewrite Hcar. repeat split; auto. }
  destruct (initialized (sim app)) eqn:Hinit.
  2:{ rewrite updateSimulation_unchanged by (right; exact Hinit).
      rewrite Hcar, Hinit. repeat split; auto. }
  destruct (updateSimulation_unfold intersectObjects delta app c Hcar Hinit)
    as (Hsim & _).
  destruct (movedState_fields delta app c Hcar)
    as (_ & _ & _ & _ & _ & _ & _ & Ho & _ & Hs).
  destruct (updateSimulation_running intersectObjects delta app c Hcar Hinit)
    as (_ & Hc' & Hi').
  destruct (updateSimulation_kinematics intersectObjects delta app c Hcar Hinit)
    as (_ & _ & _ & Hlen & _).
  cbv zeta in Hc', Hi', Hlen.
  split; [apply updateSimulation_scene|].
  split.
  { rewrite Hsim. unfold updateSensors at 1.
    destruct (laneKeepingActive app).
    - destruct (updateLaneKeeping_fields (movedState delta app))
        as (_ & _ & Hs').
      destruct (car (updateLaneKeeping (movedState delta app)));
        [destruct (sensors (updateLaneKeeping (movedState delta app))) eqn:E|];
        cbn [negb sensors set_sensorReadings]; rewrite ?E;
        rewrite Hs', Hs; reflexivity.
    - destruct (car (movedState delta app));
        [destruct (sensors (movedState delta app)) eqn:E|];
        cbn [negb sensors set_sensorReadings]; rewrite ?E;
        rewrite Hs; reflexivity. }
  split.
  { rewrite Hsim, updateSensors_obstacles.
    destruct (laneKeepingActive app);
      rewrite ?(proj1 (updateLaneKeeping_fields (movedState delta app)));
      exact Ho. }
  split; [apply updateSimulation_roadCurves|].
  split; [exact Hlen|]. split; [exact Hi'|].
  split; [intros H; contradiction | discriminate].
Qed.

Lemma updateSimulation_meshInSync delta app :
  meshInSync (sim app) ->
  meshInSync (sim (updateSimulation intersectObjects delta app)).
Proof.
  intros Hsync.
  destruct (car (sim app)) as [c|] eqn:Hcar.
  2:{ rewrite updateSimulation_unchanged by (left; exact Hcar). exact Hsync. }
  destruct (initialized (sim app)) eqn:Hinit.
  2:{ rewrite updateSimulation_unchanged by (right; exact Hinit).
      exact Hsync. }
  destruct (updateSimulation_unfold intersectObjects delta app c Hcar Hinit)
    as (Hsim & _).
  destruct (movedState_fields delta app c Hcar) as (Hc & _ & Hr & _).
  assert (Hmoved : meshInSync (movedState delta app)).
  { unfold meshInSync. rewrite Hc, Hr. cbn [obj_position rotation_y].
    unfold meshInSync in Hsync. rewrite Hcar in Hsync.
    split; [reflexivity | exact (proj2 Hsync)]. }
  rewrite Hsim. unfold meshInSync.
  rewrite updateSensors_car, updateSensors_carPosition,
    updateSensors_carRotation.
  destruct (laneKeepingActive app);
    [apply updateLaneKeeping_meshInSync|]; exact Hmoved.
Qed.

(** Both invariants hold initially and survive every event. *)
Lemma step_reachable e app app' :
  step intersectObjects e app = Some app' ->
  meshInSync (sim app) /\ wellFormed (sim app) ->
  meshInSync (sim app') /\ wellFormed (sim app').
Proof.
  intros Hstep Hall. pose proof Hall as (Hsync & Hlen & Hinit & Hcar).
  destruct e as [random|random| |delta| |].
  - destruct (mountEffect_inv _ _ _ Hstep) as (a & Hgen & ->).
    destruct (generateRoad_car _ _ _ Hgen) as (Hc & _).
    destruct (generateRoad_result _ _ _ Hgen)
      as (_ & Hsc & Hn & Ho & Hp & Hr & Hl & _ & Hs & _).
    cbn [sim set_sim car setupCar createScene roadLength sensors] in Hc, Hl, Hs.
    unfold meshInSync, wellFormed.
    cbn [sim set_sim set_initialized car carPosition carRotation roadLength
         initialized scene sensors roadCurves obstacles].
    rewrite Hc, Hp, Hr, Hl, Hs, Hsc, Hn.
    repeat split; try assumption; try reflexivity; discriminate.
  - destruct (handleStartSimulation_inv _ _ _ Hstep)
      as [(_ & ->) | (_ & a & Hgen & ->)]; [exact Hall|].
    destruct (generateRoad_car _ _ _ Hgen) as (Hc & _).
    destruct (generateRoad_result _ _ _ Hgen)
      as (_ & Hsc & Hn & Ho & Hp & Hr & Hl & Hi & Hs & _).
    unfold meshInSync, wellFormed. cbn [sim set_isSimulationRunning].
    rewrite Hc, Hp, Hr, Hl, Hi, Hs, Hsc, Hn.
    split; [destruct (car (sim app)); [split; reflexivity | exact I]|].
    split; [exact Hlen|]. split.
    + intros Hi'. specialize (Hinit Hi').
      destruct (car (sim app)); [discriminate | contradiction].
    + intros Hc'.
      assert (Hcar' : car (sim app) <> None).
      { destruct (car (sim app)); [discriminate | contradiction]. }
      destruct (Hcar Hcar') as (_ & Hsens & _).
      repeat split; assumption.
  - injection Hstep as <-. unfold handleStopSimulation.
    destruct (isSimulationRunning app); exact Hall.
  - injection Hstep as <-. unfold animate.
    destruct (isSimulationRunning app); [|exact Hall].
    split; [apply updateSimulation_meshInSync; exact Hsync|].
    destruct (updateSimulation_static delta app)
      as (Hsc & Hs & Ho & Hc & Hl & Hi & Hcp).
    unfold wellFormed. rewrite Hsc, Hs, Ho, Hc, Hl, Hi, Hcp.
    repeat split; try assumption; apply Hcar; assumption.
  - injection Hstep as <-. exact Hall.
  - injection Hstep as <-. exact Hall.
Qed.

Lemma run_reachable events : forall app app',
  run intersectObjects events app = Some app' ->
  meshInSync (sim app) /\ wellFormed (sim app) ->
  meshInSync (sim app') /\ wellFormed (sim app').
Proof.
  induction events as [|e events IH]; intros app app' Hrun H; cbn [run] in Hrun.
  - injection Hrun as <-. exact H.
  - destruct (step intersectObjects e app) as [a|] eqn:Hstep; [|discriminate].
    exact (IH a app' Hrun (step_reachable e app a Hstep H)).
Qed.

Lemma initial_reachable :
  meshInSync (sim initialApp) /\ wellFormed (sim initialApp).
Proof.
  split; [exact I|]. split; [reflexivity|].
  split; [discriminate | intros H; contradiction].
Qed.

End Reachable.

(** X14. In every reachable state the car mesh mirrors the simulation's
    pose: if the car exists, its position is [carPosition] and its
    [rotation.y] is [carRotation]. *)
Theorem car_mesh_mirrors_the_pose :
  forall (intersectObjects : Ray -> list Object3D -> list Intersection)
         (events : list Event) (app : App),
    run intersectObjects events initialApp = Some app ->
    meshInSync (sim app).
Proof.
  intros io events app Hrun.
  exact (proj1 (run_reachable io events initialApp app Hrun
                  initial_reachable)).
Qed.

(** The mesh after mounting, starting and one frame. *)
Lemma car_mesh_mirrors_the_pose_witness :
  exists app,
    run pointHits [Mount (fun _ => 0.5); Start (fun _ => 0.5); Frame 0.05]
        initialApp = Some app /\
    meshInSync (sim app).
Proof.
  destruct (run_mounted_total pointHits (fun _ => 0.5)
              [Start (fun _ => 0.5); Frame 0.05] initialApp) as (app & Hrun).
  exists app. split; [exact Hrun|].
  exact (car_mesh_mirrors_the_pose pointHits _ app Hrun).
Defined.

(** X15. In every reachable state the road length is 500, a simulation
    marked initialised has a car, and a simulation with a car has a scene,
    sensors, exactly 20 road segments and at most 16 obstacles: frames
    that run never meet a missing car or an empty road. *)
Theorem reachable_states_are_well_formed :
  forall (intersectObjects : Ray -> list Object3D -> list Intersection)
         (events : list Event) (app : App),
    run intersectObjects events initialApp = Some app ->
    roadLength (sim app) = 500 /\
    (initialized (sim app) = true -> car (sim app) <> None) /\
    (car (sim app) <> None ->
     scene (sim app) = true /\ sensors (sim app) = true /\
     length (roadCurves (sim app)) = 20%nat /\
     (length (obstacles (sim app)) <= 16)%nat).
Proof.
  intros io events app Hrun.
  exact (proj2 (run_reachable io events initialApp app Hrun
                  initial_reachable)).
Qed.

(** The shape of the state after mounting, starting and one frame. *)
Lemma reachable_states_are_well_formed_witness :
  exists app,
    run pointHits [Mount (fun _ => 0.5); Start (fun _ => 0.5); Frame 0.05]
        initialApp = Some app /\
    roadLength (sim app) = 500 /\
    (initialized (sim app) = true -> car (sim app) <> None) /\
    (car (sim app) <> None ->
     scene (sim app) = true /\ sensors (sim app) = true /\
     length (roadCurves (sim app)) = 20%nat /\
     (length (obstacles (sim app)) <= 16)%nat).
Proof.
  destruct (run_mounted_total pointHits (fun _ => 0.5)
              [Start (fun _ => 0.5); Frame 0.05] initialApp) as (app & Hrun).
  exists app. split; [exact Hrun|].
  exact (reachable_states_are_well_formed pointHits _ app Hrun).
Defined.

(** ** Camera, lane markings and sensor rays *)

(** X17. Whenever there is a car, [updateCamera] puts the camera 7 units
    above it and exactly 15 units behind it in the ground plane: the
    vector from the camera to the car is 15 times the forward direction
    [(sin heading, cos heading)].  Without a car it does nothing. *)
Theorem camera_follows_15_behind_7_above :
  (forall simulation, car simulation = None -> updateCamera simulation = None) /\
  (forall simulation c,
      car simulation = Some c ->
      exists camera,
        updateCamera simulation = Some camera /\
        y camera = y (obj_position c) + 7 /\
        sqrt ((x (obj_position c) - x camera) ^ 2
              + (z (obj_position c) - z camera) ^ 2) = 15 /\
        (x (obj_position c) - x camera) * sin (carRotation simulation)
        + (z (obj_position c) - z camera) * cos (carRotation simulation)
        = 15).
Proof.
  split.
  - intros s Hcar. unfold updateCamera. rewrite Hcar. reflexivity.
  - intros s c Hcar. unfold updateCamera. rewrite Hcar.
    eexists. split; [reflexivity|]. cbn [x y z].
    replace (Rabs (-15)) with 15
      by (unfold Rabs; destruct (Rcase_abs (-15)); lra).
    pose proof (sin2_cos2 (carRotation s)) as Hunit. unfold Rsqr in Hunit.
    set (sn := sin (carRotation s)) in *.
    set (cs := cos (carRotation s)) in *.
    split; [reflexivity|]. split.
    + replace ((x (obj_position c) - (x (obj_position c) - sn * 15)) ^ 2
               + (z (obj_position c) - (z (obj_position c) - cs * 15)) ^ 2)
        with (15 * 15 * (sn * sn + cs * cs)) by ring.
      rewrite Hunit, Rmult_1_r. apply sqrt_square. lra.
    + replace ((x (obj_position c) - (x (obj_position c) - sn * 15)) * sn
               + (z (obj_position c) - (z (obj_position c) - cs * 15)) * cs)
        with (15 * (sn * sn + cs * cs)) by ring.
      rewrite Hunit. ring.
Qed.

Lemma INR_lt_to_nat i (n : Z) :
  (i < Z.to_nat n)%nat -> INR i + 1 <= IZR n.
Proof.
  intros Hi. rewrite INR_IZR_INZ, <- plus_IZR. apply IZR_le. lia.
Qed.

(** X18. The dashes of a segment's centre line, each 3 long, are centred
    at [5 * i + 1.5] for [i = 0, 1, ...]; every dash lies within the
    segment, from 0 to its length, and a segment of a generated road
    (length 25) carries exactly 5 of them. *)
Theorem center_dashes_fit_the_segment :
  (forall len i centre,
      nth_error (centerDashes len) i = Some centre ->
      centre = 5 * INR i + 1.5 /\
      0 <= centre - dashLength / 2 /\
      centre + dashLength / 2 <= len) /\
  length (centerDashes (500 / 20)) = 5%nat.
Proof.
  split.
  - intros len i centre Hi. unfold centerDashes in Hi.
    assert (Hlt : (i < Z.to_nat (numDashes len))%nat).
    { assert (H : nth_error
                    (map (fun i => INR i * (dashLength + dashGap)
                                   + dashLength / 2)
                         (seq 0 (Z.to_nat (numDashes len)))) i <> None)
        by congruence.
      apply nth_error_Some in H. rewrite length_map, length_seq in H.
      exact H. }
    rewrite nth_error_map, nth_error_seq in Hi.
    apply Nat.ltb_lt in Hlt. rewrite Hlt in Hi. apply Nat.ltb_lt in Hlt.
    cbn [option_map Nat.add] in Hi. injection Hi as <-.
    pose proof (INR_lt_to_nat i _ Hlt) as Hn.
    unfold numDashes, Math_floor in Hn.
    destruct (base_Int_part (len / (dashLength + dashGap))) as (Hfloor & _).
    pose proof (pos_INR i) as Hpos.
    unfold dashLength, dashGap in *.
    assert (Hlen : len = 5 * (len / (3 + 2))) by (field; lra).
    repeat split; lra.
  - unfold centerDashes. rewrite length_map, length_seq.
    unfold numDashes, dashLength, dashGap.
    assert (H : (5 <= Math_floor (500 / 20 / (3 + 2)) <= 5)%Z)
      by (apply Math_floor_between; lra).
    lia.
Qed.

Lemma normalize_unit v :
  x v * x v + y v * y v + z v * z v = 1 -> normalize v = v.
Proof.
  intros H. unfold normalize. rewrite H, sqrt_1.
  destruct (Req_EM_T 1 0) as [E|_]; [lra|].
  destruct v as [vx vy vz]. cbn. f_equal; field.
Qed.

(** X19. The three sensor rays are laid out in the car's frame: the
    front ray starts 2 units ahead of the car and points along the forward
    direction [(sin h, 0, cos h)]; the right and left rays start 1 unit to
    either side and point along [(cos h, 0, -sin h)] and its opposite,
    at right angles to the forward direction; all three start 0.5 above
    the car's position, and all directions have length 1. *)
Theorem sensor_rays_follow_the_car_frame :
  forall c : Object3D,
    let h := rotation_y c in
    let p := obj_position c in
    frontRay c
    = mkRay (mkVector3 (x p + 2 * sin h) (y p + 0.5) (z p + 2 * cos h))
            (mkVector3 (sin h) 0 (cos h)) /\
    rightRay c
    = mkRay (mkVector3 (x p + cos h) (y p + 0.5) (z p - sin h))
            (mkVector3 (cos h) 0 (- sin h)) /\
    leftRay c
    = mkRay (mkVector3 (x p - cos h) (y p + 0.5) (z p + sin h))
            (mkVector3 (- cos h) 0 (sin h)).
Proof.
  intros c h p.
  pose proof (sin2_cos2 h) as Hunit. unfold Rsqr in Hunit.
  assert (Hq : forall a b d,
             applyQuaternion (mkVector3 a b d) (quaternion c)
             = mkVector3 (a * cos h + d * sin h) b (- a * sin h + d * cos h)).
  { intros a b d. exact (applyAxisAngle_axisY a b d h). }
  unfold frontRay, rightRay, leftRay, getWorldPosition.
  rewrite !Hq, !applyAxisAngle_axisY. fold h p. cbn [x y z].
  rewrite !normalize_unit by (cbn [x y z]; nra).
  repeat split; f_equal; f_equal; ring.
Qed.

(** ** Driving with an assistant switched off *)

Section AssistantsOff.

Variable intersectObjects : Ray -> list Object3D -> list Intersection.
Variable deltas : nat -> R.

Lemma frames_flags app n :
  laneKeepingActive (frames intersectObjects deltas n app)
  = laneKeepingActive app /\
  adaptiveCruiseActive (frames intersectObjects deltas n app)
  = adaptiveCruiseActive app.
Proof.
  induction n as [|n (IHl & IHa)]; [split; reflexivity|].
  cbn [frames].
  destruct (animate_flags intersectObjects (deltas n)
              (frames intersectObjects deltas n app)) as (Hl & Ha).
  rewrite Hl, Ha. split; assumption.
Qed.

Lemma updateSimulation_without_lane_keeping delta app :
  laneKeepingActive app = false ->
  let app' := updateSimulation intersectObjects delta app in
  carRotation (sim app') = carRotation (sim app) /\
  x (carPosition (sim app')) - x (carPosition (sim app))
  = sin (carRotation (sim app)) * (distance (sim app') - distance (sim app)) /\
  y (carPosition (sim app')) = y (carPosition (sim app)) /\
  z (carPosition (sim app')) - z (carPosition (sim app))
  = cos (carRotation (sim app)) * (distance (sim app') - distance (sim app)).
Proof.
  intros Hoff app'. unfold app'.
  destruct (car (sim app)) as [c|] eqn:Hcar.
  2:{ rewrite updateSimulation_unchanged by (left; exact Hcar).
      repeat split; ring. }
  destruct (initialized (sim app)) eqn:Hinit.
  2:{ rewrite updateSimulation_unchanged by (right; exact Hinit).
      repeat split; ring. }
  destruct (updateSimulation_unfold intersectObjects delta app c Hcar Hinit)
    as (Hsim & _).
  destruct (movedState_fields delta app c Hcar)
    as (_ & Hp & Hr & _ & _ & Hd & _).
  rewrite Hoff in Hsim.
  rewrite Hsim, updateSensors_carRotation, updateSensors_carPosition,
    updateSensors_distance, Hr, Hp, Hd.
  cbn [x y z]. repeat split; ring.
Qed.

Lemma updateSimulation_without_cruise delta app c :
  adaptiveCruiseActive app = false ->
  car (sim app) = Some c ->
  initialized (sim app) = true ->
  let app' := updateSimulation intersectObjects delta app in
  targetSpeed (sim app') = targetSpeed (sim app) /\
  carSpeed (sim app') - targetSpeed (sim app)
  = 0.9 * (carSpeed (sim app) - targetSpeed (sim app)).
Proof.
  intros Hoff Hcar Hinit app'.
  destruct (updateSimulation_kinematics intersectObjects delta app c Hcar Hinit)
    as (Hs & Ht & _).
  fold app' in Hs, Ht. rewrite Hs, Ht.
  unfold frameSpeed, frameTarget. rewrite Hoff. split; [reflexivity | lra].
Qed.

(** A frame too short to pass the end of the road leaves the simulation
    running. *)
Lemma short_frame_keeps_running delta app c :
  car (sim app) = Some c ->
  initialized (sim app) = true ->
  isSimulationRunning app = true ->
  speedsInRange (sim app) ->
  0 <= delta ->
  distance (sim app) + 6 * delta <= roadLength (sim app) ->
  isSimulationRunning (animate intersectObjects delta app) = true.
Proof.
  intros Hcar Hinit Hrun Hr Hdelta Hroom.
  assert (Hne : car (sim app) <> None) by (rewrite Hcar; discriminate).
  destruct (animate_running intersectObjects delta app Hne Hinit)
    as (_ & _ & _ & _ & Hon).
  cbv zeta in Hon. rewrite (Hon Hrun).
  unfold animate. rewrite Hrun.
  destruct (updateSimulation_kinematics intersectObjects delta app c Hcar Hinit)
    as (_ & _ & Hd & _).
  cbv zeta in Hd. rewrite Hd.
  pose proof (frameSpeed_range app Hr) as Hfs.
  rewrite Rltb_false; [reflexivity|]. unfold frameStep. nra.
Qed.

End AssistantsOff.

(** X20. With lane keeping switched off the heading never changes and the
    car moves on a straight line: after any number of frames its position
    is the initial position plus the distance covered times
    [(sin heading, 0, cos heading)]. *)
Theorem without_lane_keeping_the_car_goes_straight :
  forall (intersectObjects : Ray -> list Object3D -> list Intersection)
         (deltas : nat -> R) (app : App) (n : nat),
    laneKeepingActive app = false ->
    let now := sim (frames intersectObjects deltas n app) in
    carRotation now = carRotation (sim app) /\
    x (carPosition now) - x (carPosition (sim app))
    = sin (carRotation (sim app)) * (distance now - distance (sim app)) /\
    y (carPosition now) = y (carPosition (sim app)) /\
    z (carPosition now) - z (carPosition (sim app))
    = cos (carRotation (sim app)) * (distance now - distance (sim app)).
Proof.
  intros io deltas app n Hoff. cbv zeta.
  induction n as [|n (IHr & IHx & IHy & IHz)].
  - cbn [frames]. repeat split; ring.
  - cbn [frames]. unfold animate.
    destruct (isSimulationRunning (frames io deltas n app));
      [|repeat split; assumption].
    assert (Hoffn : laneKeepingActive (frames io deltas n app) = false).
    { rewrite (proj1 (frames_flags io deltas app n)). exact Hoff. }
    destruct (updateSimulation_without_lane_keeping io (deltas n) _ Hoffn)
      as (Hr & Hx & Hy & Hz).
    rewrite IHr in Hx, Hz.
    split; [rewrite Hr; exact IHr|].
    split; [lra|]. split; [rewrite Hy; exact IHy | lra].
Qed.

(** Three frames of [driving] with lane keeping switched off. *)
Lemma without_lane_keeping_the_car_goes_straight_witness :
  let now :=
    sim (frames pointHits (fun _ => 0.05) 3 (toggleLaneKeeping driving)) in
  carRotation now = carRotation (sim (toggleLaneKeeping driving)) /\
  x (carPosition now) - x (carPosition (sim (toggleLaneKeeping driving)))
  = sin (carRotation (sim (toggleLaneKeeping driving)))
    * (distance now - distance (sim (toggleLaneKeeping driving))) /\
  y (carPosition now) = y (carPosition (sim (toggleLaneKeeping driving))) /\
  z (carPosition now) - z (carPosition (sim (toggleLaneKeeping driving)))
  = cos (carRotation (sim (toggleLaneKeeping driving)))
    * (distance now - distance (sim (toggleLaneKeeping driving))).
Proof.
  apply (without_lane_keeping_the_car_goes_straight pointHits
           (fun _ => 0.05) (toggleLaneKeeping driving) 3).
  reflexivity.
Defined.

(** X21. With adaptive cruise control switched off the target speed is
    never rewritten and the speed closes in on it geometrically: as long
    as the run is still going after [n] frames, the gap between speed and
    target is [0.9 ^ n] times the initial gap. *)
Theorem without_cruise_the_speed_converges :
  forall (intersectObjects : Ray -> list Object3D -> list Intersection)
         (deltas : nat -> R) (app : App) (n : nat),
    adaptiveCruiseActive app = false ->
    car (sim app) <> None ->
    initialized (sim app) = true ->
    isSimulationRunning (frames intersectObjects deltas n app) = true ->
    targetSpeed (sim (frames intersectObjects deltas n app))
    = targetSpeed (sim app) /\
    carSpeed (sim (frames intersectObjects deltas n app))
    - targetSpeed (sim app)
    = 0.9 ^ n * (carSpeed (sim app) - targetSpeed (sim app)).
Proof.
  intros io deltas app n Hoff Hcar Hinit.
  induction n as [|n IH]; intros Hrun.
  - cbn [frames pow]. split; [reflexivity | ring].
  - pose proof (frames_running_prefix io deltas app n Hrun) as Hprev.
    destruct (IH Hprev) as (IHt & IHs).
    destruct (frames_initialised io deltas app Hcar Hinit n) as (Hc & Hi & _).
    destruct (car (sim (frames io deltas n app))) as [c|] eqn:Ec;
      [|contradiction].
    assert (Hoffn : adaptiveCruiseActive (frames io deltas n app) = false).
    { rewrite (proj2 (frames_flags io deltas app n)). exact Hoff. }
    destruct (updateSimulation_without_cruise io (deltas n) _ c Hoffn Ec Hi)
      as (Ht & Hs).
    cbn [frames pow]. unfold animate. rewrite Hprev.
    rewrite IHt in Ht, Hs. split; [exact Ht|]. rewrite Hs, IHs. lra.
Qed.

Lemma catchingUp_after_unit_frame :
  isSimulationRunning (frames pointHits (fun _ => 1) 1 catchingUp) = true.
Proof.
  cbn [frames].
  apply (short_frame_keeps_running pointHits 1 catchingUp
           (mkObject3D (mkVector3 1 0.5 0) 0)); try reflexivity.
  - split; cbn; lra.
  - lra.
  - cbn. lra.
Qed.

(** One frame from speed 0.1 towards the target 0.3. *)
Lemma without_cruise_the_speed_converges_witness :
  targetSpeed (sim (frames pointHits (fun _ => 1) 1 catchingUp))
  = targetSpeed (sim catchingUp) /\
  carSpeed (sim (frames pointHits (fun _ => 1) 1 catchingUp))
  - targetSpeed (sim catchingUp)
  = 0.9 ^ 1 * (carSpeed (sim catchingUp) - targetSpeed (sim catchingUp)).
Proof.
  apply (without_cruise_the_speed_converges pointHits (fun _ => 1)
           catchingUp 1).
  - reflexivity.
  - discriminate.
  - reflexivity.
  - exact catchingUp_after_unit_frame.
Defined.

(** ** Sensor readings across a restart *)

(** X22. Regenerating the road does not clear the sensor readings, and a
    frame computes the target speed before it refreshes them: the first
    frame after a start slows down for whatever the front sensor read
    before the start, whatever the new road looks like. *)
Theorem first_frame_after_start_uses_the_old_reading :
  forall (intersectObjects : Ray -> list Object3D -> list Intersection)
         (random : RandomSource) (delta : R) (app : App) (d : R),
    isSimulationRunning app = false ->
    scene (sim app) = true ->
    car (sim app) <> None ->
    initialized (sim app) = true ->
    adaptiveCruiseActive app = true ->
    front (sensorReadings (sim app)) = Fin d ->
    d < 10 ->
    exists started,
      handleStartSimulation random app = Some started /\
      sensorReadings (sim started) = sensorReadings (sim app) /\
      targetSpeed (sim (animate intersectObjects delta started))
      = 0.3 * Rmax 0.1 (d / 10).
Proof.
  intros io random delta app d Hrun Hscene Hcar Hinit Hacc Hfront Hd.
  destruct (handleStartSimulation_fresh random app Hrun Hscene)
    as (a & Hst & Hr & _ & _ & _ & _ & _ & _ & _ & Hc & Hi & Hsr & _ & Ha).
  exists a. split; [exact Hst|]. split; [exact Hsr|].
  specialize (Hc Hcar). rewrite Hinit in Hi.
  destruct (car (sim a)) as [c|] eqn:Ec; [|contradiction].
  destruct (updateSimulation_kinematics io delta a c Ec Hi) as (_ & Ht & _).
  cbv zeta in Ht. unfold animate. rewrite Hr, Ht.
  unfold frameTarget. rewrite Ha, Hacc.
  apply updateAdaptiveCruiseControl_below; [|exact Hd].
  rewrite Hsr. exact Hfront.
Qed.

(** A start and a frame with the front sensor left at 5. *)
Lemma first_frame_after_start_uses_the_old_reading_witness :
  exists started,
    handleStartSimulation (fun _ => 0.5) stoppedBehindObstacle = Some started /\
    sensorReadings (sim started) = sensorReadings (sim stoppedBehindObstacle) /\
    targetSpeed (sim (animate pointHits 0.05 started))
    = 0.3 * Rmax 0.1 (5 / 10).
Proof.
  apply (first_frame_after_start_uses_the_old_reading pointHits
           (fun _ => 0.5) 0.05 stoppedBehindObstacle 5).
  - reflexivity.
  - reflexivity.
  - discriminate.
  - reflexivity.
  - reflexivity.
  - reflexivity.
  - lra.
Defined.

(* ================================================================= *)
(** * Start-up and lane keeping in reachable states *)

(** ** Frames on a state that is not initialised yet *)

(** C9. In every state the component can reach, a frame executed while the
    simulation is not initialised yet (no car, or an empty segment list)
    does not fail and leaves the whole state unchanged, whether the
    running flag is set or not; lane keeping and the sensor update, taken
    alone, are no-ops on it as well.  A reachable state with an empty
    segment list has no car, so the frame hits the guard at the top of
    [updateSimulation]. *)
Theorem C9_frames_before_initialisation :
  forall (intersectObjects : Ray -> list Object3D -> list Intersection)
         (events : list Event) (app : App) (delta : R),
    run intersectObjects events initialApp = Some app ->
    car (sim app) = None \/ roadCurves (sim app) = [] ->
    step intersectObjects (Frame delta) app = Some app /\
    animate intersectObjects delta app = app /\
    updateSimulation intersectObjects delta app = app /\
    updateLaneKeeping (sim app) = sim app /\
    updateSensors intersectObjects (sim app) = sim app.
Proof.
  intros io events app delta Hrun Hun.
  destruct (run_reachable io events initialApp app Hrun initial_reachable)
    as (_ & _ & Hinit & Hcar).
  assert (Hnone : car (sim app) = None).
  { destruct Hun as [H|H]; [exact H|].
    destruct (car (sim app)) as [c|] eqn:Ec; [|reflexivity].
    assert (Hc : Some c <> None) by discriminate.
    destruct (Hcar Hc) as (_ & _ & Hlen & _).
    rewrite H in Hlen. discriminate. }
  assert (Hu : updateSimulation io delta app = app).
  { unfold updateSimulation. rewrite Hnone. reflexivity. }
  assert (Ha : animate io delta app = app).
  { unfold animate. destruct (isSimulationRunning app); [exact Hu|reflexivity]. }
  split; [cbn [step]; rewrite Ha; reflexivity|].
  split; [exact Ha|]. split; [exact Hu|]. split.
  - unfold updateLaneKeeping. rewrite Hnone. reflexivity.
  - unfold updateSensors. rewrite Hnone. reflexivity.
Qed.

(** A frame of 0.05 time units on the component as it is before the scene
    is mounted: no car, no segments, [initialized] not set. *)
Lemma C9_frames_before_initialisation_witness :
  step pointHits (Frame 0.05) initialApp = Some initialApp /\
  animate pointHits 0.05 initialApp = initialApp /\
  updateSimulation pointHits 0.05 initialApp = initialApp /\
  updateLaneKeeping (sim initialApp) = sim initialApp /\
  updateSensors pointHits (sim initialApp) = sim initialApp.
Proof.
  apply (C9_frames_before_initialisation pointHits [] initialApp 0.05).
  - reflexivity.
  - left. reflexivity.
Defined.

(** ** Lane keeping on a curved road *)

(** The offset of the specification, written out. *)
Lemma specLateralOffset_eq p segment :
  specLateralOffset p segment
  = (x p - px (position segment)) * cos (angle segment)
    - (z p - pz (position segment)) * sin (angle segment).
Proof.
  unfold specLateralOffset. rewrite applyAxisAngle_axisY. cbn [x].
  rewrite cos_neg, sin_neg. ring.
Qed.

(** The offset [updateLaneKeeping] computes, written out. *)
Lemma steering_eq p segment v :
  steering p segment v
  = (- ((x p - px (position segment)) * cos (angle segment)
        + (z p - pz (position segment)) * sin (angle segment)) * 0.5
     + curvature segment * 10) * v.
Proof.
  unfold steering. cbv zeta. rewrite cos_neg, sin_neg. ring.
Qed.

(** A vehicle [t] units down the centreline of a segment and [u] units
    along the segment's local x axis: the specification's offset is [u],
    the one of the code is [t * sin (2 * heading) + u * cos (2 * heading)]. *)
Lemma offsets_in_segment_frame segment t u p v :
  let forward := applyAxisAngle (mkVector3 0 0 1) axisY (angle segment) in
  let side := applyAxisAngle (mkVector3 1 0 0) axisY (angle segment) in
  x p = px (position segment) + t * x forward + u * x side ->
  z p = pz (position segment) + t * z forward + u * z side ->
  specLateralOffset p segment = u /\
  steering p segment v
  = (- (t * sin (2 * angle segment) + u * cos (2 * angle segment)) * 0.5
     + curvature segment * 10) * v.
Proof.
  intros forward side. subst forward side.
  rewrite !applyAxisAngle_axisY. cbn [x z]. intros Hx Hz.
  rewrite specLateralOffset_eq, steering_eq, Hx, Hz, sin_2a, cos_2a.
  pose proof (sin2_cos2 (angle segment)) as Hunit. unfold Rsqr in Hunit.
  set (s := sin (angle segment)) in *. set (k := cos (angle segment)) in *.
  split.
  - transitivity (u * (s * s + k * k)); [ring|]. rewrite Hunit. ring.
  - ring.
Qed.

(** The two heading updates differ by the distance along the z axis
    between the vehicle and the segment's start, times the sine of the
    segment's heading, times the speed. *)
Lemma steering_minus_specSteering p segment v :
  steering p segment v - specSteering p segment v
  = - ((z p - pz (position segment)) * sin (angle segment)) * v.
Proof.
  unfold specSteering. rewrite steering_eq, specLateralOffset_eq. lra.
Qed.

(** *** The road of [curvedSource] *)

Lemma sin_0012 a : a = 0.012 -> sin a = sin 0.012.
Proof. intros ->. reflexivity. Qed.

Lemma cos_0012 a : a = 0.012 -> cos a = cos 0.012.
Proof. intros ->. reflexivity. Qed.

Ltac curved_trig :=
  flat_trig;
  repeat match goal with
         | |- context [sin ?a] => progress (rewrite (sin_0012 a) by lra)
         | |- context [cos ?a] => progress (rewrite (cos_0012 a) by lra)
         end.

Lemma RoadCurve_eq x1 z1 a1 c1 x2 z2 a2 c2 :
  x1 = x2 -> z1 = z2 -> a1 = a2 -> c1 = c2 ->
  mkRoadCurve (mkPoint x1 z1) a1 c1 = mkRoadCurve (mkPoint x2 z2) a2 c2.
Proof. intros -> -> -> ->. reflexivity. Qed.

Lemma generatedCurves_curvedSource :
  generatedCurves curvedSource 500 = curvedRoad.
Proof.
  unfold generatedCurves, segments, curvedRoad.
  replace (INR 20) with 20 by (simpl; lra).
  cbn [roadCurvesLoop Nat.ltb Nat.leb fst snd map seq app curvedSource Nat.eqb].
  repeat (apply f_equal2; [apply RoadCurve_eq|]);
    try reflexivity; cbn [INR]; curved_trig; lra.
Qed.

Lemma sin_0012_pos : 0 < sin 0.012.
Proof.
  apply sin_gt_0; [lra|]. pose proof PI2_1. lra.
Qed.

Lemma cos_0012_bounds : 0.99 < cos 0.012 <= 1.
Proof.
  split; [|apply COS_bound].
  replace 0.012 with (2 * 0.006) by lra. rewrite cos_2a_sin.
  assert (Hlo : 0 < sin 0.006).
  { apply sin_gt_0; [lra|]. pose proof PI2_1. lra. }
  assert (Hhi : sin 0.006 < 0.006) by (apply sin_lt_x; lra).
  nra.
Qed.

(** *** The segment nearest to [(0, 110)] on that road *)

Lemma nearest_unique p curves n segment n' segment' :
  nearest p curves n segment -> nearest p curves n' segment' ->
  n = n' /\ segment = segment'.
Proof.
  intros (Hn & Hle & Hlt) (Hn' & Hle' & Hlt').
  assert (Heq : n = n').
  { destruct (Nat.lt_trichotomy n n') as [H|[H|H]]; [|exact H|].
    - pose proof (Hlt' n segment H Hn). pose proof (Hle n' segment' Hn'). lra.
    - pose proof (Hlt n' segment' H Hn'). pose proof (Hle' n segment Hn). lra. }
  split; [exact Heq|]. subst n'. congruence.
Qed.

(** Squared distance from [(0, 110)] to the point [25 * m] units from
    [(0, 75)] along a unit direction [(s, k)]. *)
Lemma squared_distance_along m s k :
  s * s + k * k = 1 ->
  (0 - 25 * m * s) ^ 2 + (110 - (75 + 25 * m * k)) ^ 2
  = 625 * m * m + 1225 - 1750 * m * k.
Proof.
  intros H.
  transitivity (625 * m * m * (s * s + k * k) + 1225 - 1750 * m * k); [ring|].
  rewrite H. ring.
Qed.

Lemma curvedRoad_nearest :
  exists segment,
    nearest (mkVector3 0 0.5 110) curvedRoad 4 segment /\
    px (position segment) = 25 * sin 0.012 /\
    pz (position segment) = 75 + 25 * cos 0.012 /\
    angle segment = 0.012 /\ curvature segment = 0.
Proof.
  pose proof sin_0012_pos as Hs. pose proof cos_0012_bounds as Hk.
  pose proof (sin2_cos2 0.012) as Hunit. unfold Rsqr in Hunit.
  eexists. split; [split; [reflexivity|split]|].
  - intros j sj Hj. unfold groundDistance. apply sqrt_le_1_alt.
    cbn [x z position px pz].
    rewrite (squared_distance_along (INR 1) _ _ Hunit).
    unfold curvedRoad in Hj. cbn [map seq app] in Hj.
    do 4 (destruct j as [|j];
          [injection Hj as <-; cbn [position px pz INR]; nra|]).
    do 16 (destruct j as [|j];
           [injection Hj as <-; cbn [position px pz];
            rewrite (squared_distance_along _ _ _ Hunit); cbn [INR]; nra|]).
    destruct j; discriminate.
  - intros j sj Hlt Hj. unfold groundDistance.
    apply sqrt_lt_1_alt.
    cbn [x z position px pz].
    rewrite (squared_distance_along (INR 1) _ _ Hunit).
    split; [cbn [INR]; nra|].
    unfold curvedRoad in Hj. cbn [map seq app] in Hj.
    do 4 (destruct j as [|j];
          [injection Hj as <-; cbn [position px pz INR]; nra|]).
    lia.
  - cbn [position px pz angle curvature INR].
    repeat split; lra.
Qed.

(** *** The state in which the first frame runs *)

Lemma mountEffect_state random app :
  exists app',
    mountEffect random app = Some app' /\
    car (sim app') = Some (mkObject3D (mkVector3 0 0.5 0) 0) /\
    initialized (sim app') = true /\
    roadCurves (sim app') = generatedCurves random (roadLength (sim app)) /\
    carPosition (sim app') = mkVector3 0 0.5 0 /\
    carRotation (sim app') = 0 /\
    carSpeed (sim app') = carSpeed (sim app) /\
    sensorReadings (sim app') = sensorReadings (sim app) /\
    roadLength (sim app') = roadLength (sim app) /\
    isSimulationRunning app' = isSimulationRunning app /\
    laneKeepingActive app' = laneKeepingActive app /\
    adaptiveCruiseActive app' = adaptiveCruiseActive app.
Proof.
  destruct (generateRoad_spec random
              (set_sim (setupCar (createScene (sim app))) app) eq_refl)
    as (a & Hgen & Hcurves & _ & _ & Hrot & Hpos & _ & _ & Hs & _ & Hl & Hr
        & _ & _ & _ & Hsr & _ & Hlk & Hacc).
  destruct (generateRoad_car _ _ _ Hgen) as (Hcar & _).
  exists (set_sim (set_initialized (sim a)) a).
  unfold mountEffect. rewrite Hgen.
  cbn [sim set_sim set_initialized car initialized roadCurves carPosition
       carRotation carSpeed sensorReadings roadLength isSimulationRunning
       laneKeepingActive adaptiveCruiseActive].
  repeat split; assumption.
Qed.

Lemma handleStartSimulation_state random app :
  isSimulationRunning app = false ->
  scene (sim app) = true ->
  exists app',
    handleStartSimulation random app = Some app' /\
    isSimulationRunning app' = true /\
    carSpeed (sim app') = carSpeed (sim app) /\
    sensorReadings (sim app') = sensorReadings (sim app) /\
    roadLength (sim app') = roadLength (sim app) /\
    laneKeepingActive app' = laneKeepingActive app /\
    adaptiveCruiseActive app' = adaptiveCruiseActive app.
Proof.
  intros Hrun Hscene.
  destruct (generateRoad_spec random app Hscene)
    as (a & Hgen & _ & _ & _ & _ & _ & _ & _ & Hs & _ & Hl & _
        & _ & _ & _ & Hsr & _ & Hlk & Hacc).
  exists (set_isSimulationRunning true a).
  unfold handleStartSimulation. rewrite Hrun, Hgen.
  repeat split; assumption.
Qed.

(** C1, evaluated on the first frame of a run.  Every call of
    [generateRoad] draws [curvedSource]: segment 3 has curvature [0.012],
    so the segments from index 4 on leave [(0, 75)] along the heading
    [0.012].  The component is mounted, the start button is pressed, the
    scene effect runs again (its dependency [animate] changes with the
    running flag), and the first frame comes 55/3 time units later.  The
    car, at speed 0.3 with heading 0, moves from the origin to
    [(0, 110)]; segment 4 is the nearest one.

    In the frame of that segment the car is [35 * sin 0.012] units to the
    side of the centreline, on the negative side of the local x axis, so
    the specification's law turns the heading by [5.25 * sin 0.012].
    [updateLaneKeeping] turns it by
    [(7.5 * cos 0.012 - 5.25) * sin 0.012], less than half of that: the
    sign of the sine term in its rotation is the opposite one, which
    mixes the distance travelled along the segment into the offset. *)
Theorem C1_lateral_offset_mixes_in_the_distance_along_the_segment :
  exists app app' segment,
    run pointHits [Mount curvedSource; Start curvedSource; Mount curvedSource]
        initialApp = Some app /\
    step pointHits (Frame (55 / 3)) app = Some app' /\
    isSimulationRunning app = true /\
    laneKeepingActive app = true /\
    carRotation (sim app) = 0 /\
    carPosition (sim app') = mkVector3 0 0.5 110 /\
    carSpeed (sim app') = 0.3 /\
    nearest (carPosition (sim app')) (roadCurves (sim app)) 4 segment /\
    px (position segment) = 25 * sin 0.012 /\
    pz (position segment) = 75 + 25 * cos 0.012 /\
    angle segment = 0.012 /\
    curvature segment = 0 /\
    specLateralOffset (carPosition (sim app')) segment = - 35 * sin 0.012 /\
    specSteering (carPosition (sim app')) segment (carSpeed (sim app'))
    = 5.25 * sin 0.012 /\
    carRotation (sim app') - carRotation (sim app)
    = (7.5 * cos 0.012 - 5.25) * sin 0.012 /\
    carRotation (sim app') - carRotation (sim app)
    < specSteering (carPosition (sim app')) segment (carSpeed (sim app')).
Proof.
  destruct (mountEffect_state curvedSource initialApp)
    as (a1 & Hm1 & _ & _ & _ & _ & _ & Hs1 & Hsr1 & Hl1 & Hr1 & Hlk1 & Hacc1).
  assert (Hsc1 : scene (sim a1) = true).
  { destruct (mountEffect_total curvedSource initialApp) as (b & Hb & Hsc & _).
    rewrite Hm1 in Hb. injection Hb as <-. exact Hsc. }
  destruct (handleStartSimulation_state curvedSource a1 Hr1 Hsc1)
    as (a2 & Hst & Hr2 & Hs2 & Hsr2 & Hl2 & Hlk2 & Hacc2).
  destruct (mountEffect_state curvedSource a2)
    as (a3 & Hm3 & Hcar & Hinit & Hcurves & Hpos & Hrot & Hs3 & Hsr3 & Hl3
        & Hr3 & Hlk3 & Hacc3).
  assert (Hspeed : carSpeed (sim a3) = 0.3).
  { rewrite Hs3, Hs2, Hs1. reflexivity. }
  assert (Hlk : laneKeepingActive a3 = true).
  { rewrite Hlk3, Hlk2, Hlk1. reflexivity. }
  assert (Hacc : adaptiveCruiseActive a3 = true).
  { rewrite Hacc3, Hacc2, Hacc1. reflexivity. }
  assert (Hrun : isSimulationRunning a3 = true).
  { rewrite Hr3. exact Hr2. }
  assert (Hroad : roadCurves (sim a3) = curvedRoad).
  { rewrite Hcurves, Hl2, Hl1. exact generatedCurves_curvedSource. }
  assert (Hft : frameTarget a3 = 0.3).
  { unfold frameTarget. rewrite Hacc.
    apply updateAdaptiveCruiseControl_no_hit.
    rewrite Hsr3, Hsr2, Hsr1. reflexivity. }
  assert (Hfs : frameSpeed a3 = 0.3).
  { unfold frameSpeed. rewrite Hft, Hspeed. lra. }
  assert (Hstep : frameStep (55 / 3) a3 = 110).
  { unfold frameStep. rewrite Hfs. lra. }
  set (a4 := updateSimulation pointHits (55 / 3) a3).
  destruct (updateSimulation_kinematics pointHits (55 / 3) a3 _ Hcar Hinit)
    as (Hspeed4 & _ & _ & _ & Hpos4).
  fold a4 in Hspeed4, Hpos4.
  rewrite Hfs in Hspeed4.
  rewrite Hstep, Hpos, Hrot, sin_0, cos_0 in Hpos4. cbn [x y z] in Hpos4.
  assert (Hp : carPosition (sim a4) = mkVector3 0 0.5 110).
  { rewrite Hpos4. f_equal; lra. }
  assert (Hne : roadCurves (sim a3) <> []).
  { rewrite Hroad. discriminate. }
  destruct (updateSimulation_steering pointHits (55 / 3) a3 _ Hcar Hinit Hlk Hne)
    as (n & segment & Hnear & Hturn).
  fold a4 in Hnear, Hturn.
  destruct curvedRoad_nearest as (seg4 & Hnear4 & Hx4 & Hz4 & Ha4 & Hc4).
  rewrite Hp, Hroad in Hnear.
  destruct (nearest_unique _ _ _ _ _ _ Hnear Hnear4) as (-> & ->).
  pose proof sin_0012_pos as Hsin. pose proof cos_0012_bounds as Hcos.
  assert (Hspec : specLateralOffset (carPosition (sim a4)) seg4
                  = - 35 * sin 0.012).
  { rewrite specLateralOffset_eq, Hp, Hx4, Hz4, Ha4. cbn [x z]. lra. }
  assert (Hss : specSteering (carPosition (sim a4)) seg4 (carSpeed (sim a4))
                = 5.25 * sin 0.012).
  { unfold specSteering. rewrite Hspec, Hc4, Hspeed4. lra. }
  assert (Hcode : carRotation (sim a4) - carRotation (sim a3)
                  = (7.5 * cos 0.012 - 5.25) * sin 0.012).
  { rewrite Hturn, steering_eq, Hp, Hx4, Hz4, Ha4, Hc4, Hspeed4. cbn [x z].
    lra. }
  exists a3, a4, seg4.
  split.
  { cbn [run].
    change (step pointHits (Mount curvedSource) initialApp)
      with (mountEffect curvedSource initialApp).
    rewrite Hm1.
    change (step pointHits (Start curvedSource) a1)
      with (handleStartSimulation curvedSource a1).
    rewrite Hst.
    change (step pointHits (Mount curvedSource) a2)
      with (mountEffect curvedSource a2).
    rewrite Hm3. reflexivity. }
  split.
  { change (step pointHits (Frame (55 / 3)) a3)
      with (Some (animate pointHits (55 / 3) a3)).
    unfold animate. rewrite Hrun. reflexivity. }
  split; [exact Hrun|]. split; [exact Hlk|]. split; [exact Hrot|].
  split; [exact Hp|]. split; [exact Hspeed4|].
  split; [rewrite Hp, Hroad; exact Hnear4|].
  split; [exact Hx4|]. split; [exact Hz4|]. split; [exact Ha4|].
  split; [exact Hc4|]. split; [exact Hspec|]. split; [exact Hss|].
  split; [exact Hcode|].
  rewrite Hcode, Hss. nra.
Qed.
